(** * csvali: a streaming CSV codec (Lexer, Parser, Writer)

    Shallow embedding of [src/main.ts] and the properties of its
    specification.

    Strings are JavaScript strings: finite sequences of UTF-16 code units.
    A code unit is a natural number ([N]); every statement quantified over
    [jsstring] therefore covers every JavaScript string.  [null] is [None].
    Exceptions are the [Throw] outcome of [Result]. *)

From Stdlib Require Import String Ascii.
From Stdlib Require Import List NArith Bool Arith Lia.
Import ListNotations.
Open Scope list_scope.

(** ** JavaScript strings *)

Definition code := N.
Definition jsstring := list code.

(** [a === b] on strings. *)
Fixpoint jseq (a b : jsstring) : bool :=
  match a, b with
  | [], [] => true
  | x :: a', y :: b' => N.eqb x y && jseq a' b'
  | _, _ => false
  end.

(** [s.startsWith(p)]. *)
Fixpoint startsWith (s p : jsstring) {struct p} : bool :=
  match p, s with
  | [], _ => true
  | x :: p', y :: s' => N.eqb x y && startsWith s' p'
  | _ :: _, [] => false
  end.

(** [s.includes(sub)]: [sub] occurs in [s] as a substring. *)
Fixpoint includes (s sub : jsstring) : bool :=
  startsWith s sub ||
  match s with
  | [] => false
  | _ :: s' => includes s' sub
  end.

(** [parts.join('')]. *)
Definition join (parts : list jsstring) : jsstring := concat parts.

(** ASCII text of a literal as a JavaScript string. *)
Definition js (s : string) : jsstring :=
  List.map N_of_ascii (list_ascii_of_string s).

Definition COMMA : code := 44%N.
Definition DQUOTE : code := 34%N.
Definition CR : code := 13%N.
Definition LF : code := 10%N.

(** ** Outcomes *)

Inductive Error : Type :=
| RowDelimiterNull                (* 'Csv row delimiter cannot be null.' *)
| RowDelimiterTooLong             (* 'Csv row delimiter too long, maximum length: 2.' *)
| UnexpectedEndOfLexerOutput      (* 'Unexpected end of lexer output, expected EndOfFile token.' *)
| UnexpectedTokenType (n : nat)    (* Error(this.CurrentTokenType.toString()) *)
| RegExpSyntaxError.              (* SyntaxError: Invalid regular expression *)

(** [OutOfFuel] and [Unmodelled] belong to the model only.  The loops of
    the Parser that are not structurally recursive carry a fuel, which is
    shown never to run out.  [Unmodelled] marks the one place where the
    embedding stops: a regular expression whose pattern is not a single
    code unit. *)
Inductive Result (A : Type) : Type :=
| Ok (a : A)
| Throw (e : Error)
| OutOfFuel
| Unmodelled.
Arguments Ok {A} a.
Arguments Throw {A} e.
Arguments OutOfFuel {A}.
Arguments Unmodelled {A}.

Definition bind {A B} (m : Result A) (f : A -> Result B) : Result B :=
  match m with
  | Ok a => f a
  | Throw e => Throw e
  | OutOfFuel => OutOfFuel
  | Unmodelled => Unmodelled
  end.

Notation "x <- m ;; f" := (bind m (fun x => f))
  (at level 61, m at next level, right associativity).
Notation "' pat <- m ;; f" := (bind m (fun x => match x with pat => f end))
  (at level 61, pat pattern, m at next level, right associativity).

(** ** Tokens and settings *)

Inductive TokenType : Type :=
| NotSet | Text | LineSeparator | Delimiter | Quote | EndOfFile.

Definition TokenType_value (t : TokenType) : nat :=
  match t with
  | NotSet => 0 | Text => 1 | LineSeparator => 2
  | Delimiter => 3 | Quote => 4 | EndOfFile => 5
  end.

Definition TokenType_eqb (a b : TokenType) : bool :=
  Nat.eqb (TokenType_value a) (TokenType_value b).

Record Token : Type := mkToken {
  Type_ : TokenType;
  Value : option jsstring
}.

Definition Token_NotSet : Token := mkToken NotSet None.

Inductive QuotingMode : Type := Minimal | QuoteAll.

Record ParseSettings : Type := mkSettings {
  FieldDelimiter : jsstring;
  RowDelimiter : jsstring;
  QuotingCharacter : jsstring;
  QuotingMode_ : QuotingMode
}.

(** [new ParseSettings()]. *)
Definition defaultSettings : ParseSettings :=
  mkSettings [COMMA] [CR; LF] [DQUOTE] Minimal.

(** ** TextReader *)

Record TextReader : Type := mkReader {
  content : jsstring;
  position : nat
}.

Definition new_TextReader (c : jsstring) : TextReader := mkReader c 0.

(** [read()]: [None] is the end marker [-1]. *)
Definition read (r : TextReader) : option code * TextReader :=
  match nth_error (content r) (position r) with
  | None => (None, r)
  | Some c => (Some c, mkReader (content r) (S (position r)))
  end.

Definition peek (r : TextReader) : option code :=
  nth_error (content r) (position r).

(** The characters a reader has not consumed yet. *)
Definition unread (r : TextReader) : jsstring :=
  skipn (position r) (content r).

(** ** Generators of tokens

    A generator object, seen from its consumer: the outcome of running its
    body, which is the tokens still to be yielded, or the exception raised
    at the first pull (the body of [scanReader] starts with
    [validateSettings], and nothing of it runs before [next()] is
    called). *)

Inductive Generator : Type :=
| Yields (toks : list Token)
| Fails (e : Error).

(** [gen.next()]: [Some t] for [{value: t, done: false}], [None] for
    [{done: true}]; a generator that has thrown is finished. *)
Definition next (g : Generator) : Result (option Token) * Generator :=
  match g with
  | Yields (t :: l) => (Ok (Some t), Yields l)
  | Yields [] => (Ok None, Yields [])
  | Fails e => (Throw e, Yields [])
  end.

(** ** Lexer *)

Module Lexer.

Section WithSettings.
Variable Settings : ParseSettings.

Definition FieldDelimiterToken : Token :=
  mkToken Delimiter (Some (FieldDelimiter Settings)).
Definition LineSeparatorToken : Token :=
  mkToken LineSeparator (Some (RowDelimiter Settings)).
Definition QuoteToken : Token :=
  mkToken Quote (Some (QuotingCharacter Settings)).

(** The exception [validateSettings] throws, if any. *)
Definition validateSettings : option Error :=
  match RowDelimiter Settings with
  | [] => Some RowDelimiterNull
  | _ =>
      if 2 <? length (RowDelimiter Settings)
      then Some RowDelimiterTooLong
      else None
  end.

(** [String.fromCharCode(current) === first] with
    [first = RowDelimiter[0]]. *)
Definition isFirst (current : code) : bool :=
  match RowDelimiter Settings with
  | f :: _ => N.eqb current f
  | [] => false
  end.

(** [second]: [RowDelimiter[1]] when the delimiter has two characters,
    [null] otherwise. *)
Definition second : option code :=
  if 1 <? length (RowDelimiter Settings)
  then nth_error (RowDelimiter Settings) 1
  else None.

(** [if (buffer.length > 0) yield new Token(Text, buffer)]. *)
Definition flush (buffer : jsstring) : list Token :=
  match buffer with
  | [] => []
  | _ => [mkToken Text (Some buffer)]
  end.

(** The [special.Type !== NotSet] branch: the pending text, then the
    special token; the buffer restarts empty. *)
Definition yieldSpecial (buffer : jsstring) (special : Token)
    (rest : list Token) : list Token :=
  flush buffer ++ special :: rest.

(** The [while ((current = reader.read()) !== -1)] loop of [scanReader] and
    what follows it, as the list of the tokens yielded, over the
    characters the reader still holds. *)
Fixpoint scanLoop (input : jsstring) (buffer : jsstring) : list Token :=
  match input with
  | [] => flush buffer ++ [mkToken EndOfFile None]
  | current :: rest =>
      if jseq [current] (FieldDelimiter Settings) then
        yieldSpecial buffer FieldDelimiterToken (scanLoop rest [])
      else if jseq [current] (QuotingCharacter Settings) then
        yieldSpecial buffer QuoteToken (scanLoop rest [])
      else if isFirst current then
        match second with
        | None => yieldSpecial buffer LineSeparatorToken (scanLoop rest [])
        | Some c2 =>
            match rest with
            | next :: rest' =>
                if N.eqb next c2
                then yieldSpecial buffer LineSeparatorToken (scanLoop rest' [])
                else scanLoop rest (buffer ++ [current])
            | [] => scanLoop rest (buffer ++ [current])
            end
        end
      else scanLoop rest (buffer ++ [current])
  end.

Definition scanReader (reader : TextReader) : Generator :=
  match validateSettings with
  | Some e => Fails e
  | None => Yields (scanLoop (unread reader) [])
  end.

Definition scan (input : jsstring) : Generator :=
  scanReader (new_TextReader input).

End WithSettings.

End Lexer.

(** ** Parser *)

(** A field value: a string or [null]. *)
Definition Field := option jsstring.
Definition Row := list Field.

Module Parser.

Record Parser : Type := mkParser {
  tokens : Generator;
  current : option Token
}.

(** [initialize]: the Lexer is built and its generator stored; no token is
    read ([this.moveNext()] is commented out in the source). *)
Definition initialize (reader : TextReader) (settings : ParseSettings)
    : Parser :=
  mkParser (Lexer.scanReader settings reader) None.

Definition orDefault (settings : option ParseSettings) : ParseSettings :=
  match settings with
  | Some s => s
  | None => defaultSettings
  end.

(** [new Parser(csv, settings)]. *)
Definition new_Parser (csv : jsstring) (settings : option ParseSettings)
    : Parser :=
  initialize (new_TextReader csv) (orDefault settings).

Definition CurrentToken (p : Parser) : Token :=
  match current p with
  | None => Token_NotSet
  | Some t => t
  end.

Definition CurrentTokenType (p : Parser) : TokenType :=
  match current p with
  | None => NotSet
  | Some t => Type_ t
  end.

Definition HasMoreRows (p : Parser) : bool :=
  negb (TokenType_eqb (CurrentTokenType p) EndOfFile).

Definition moveNext (p : Parser) : Result (bool * Parser) :=
  let (result, g) := next (tokens p) in
  result <- result;;
  match result with
  | None => Ok (false, mkParser g (Some (mkToken EndOfFile None)))
  | Some value => Ok (true, mkParser g (Some value))
  end.

(** [this.CurrentToken.Value || ''], the empty string for [null]. *)
Definition valueOrEmpty (t : Token) : jsstring :=
  match Value t with
  | Some v => v
  | None => []
  end.

(** The local variables of [ReadNextCsvValue]. *)
Record FieldState : Type := mkFieldState {
  nextValue : list jsstring;
  isQuoted : bool;
  isQuoteModeOn : bool
}.

Inductive Step : Type :=
| Continue (st : FieldState)
| Return (v : Field)
| Raise (e : Error).

(** One iteration of the [while (true)] loop of [ReadNextCsvValue], after
    [moveNext] has made [cur] the current token. *)
Definition fieldStep (cur : Token) (st : FieldState) : Step :=
  if isQuoteModeOn st then
    if TokenType_eqb (Type_ cur) Quote
    then Continue (mkFieldState (nextValue st) (isQuoted st) false)
    else Continue (mkFieldState (nextValue st ++ [valueOrEmpty cur])
                                (isQuoted st) true)
  else
    match Type_ cur with
    | Delimiter | LineSeparator | EndOfFile =>
        match nextValue st with
        | [] => Return None
        | _ => Return (Some (join (nextValue st)))
        end
    | Quote =>
        if isQuoted st
        then Continue (mkFieldState (nextValue st ++ [valueOrEmpty cur])
                                    true true)
        else Continue (mkFieldState (nextValue st) true true)
    | Text =>
        Continue (mkFieldState (nextValue st ++ [valueOrEmpty cur])
                               (isQuoted st) false)
    | NotSet => Raise (UnexpectedTokenType (TokenType_value NotSet))
    end.

(** The [while (true)] loop over the tokens the generator still holds:
    [moveNext] takes the head; on an exhausted generator it returns false
    and the loop throws. *)
Fixpoint fieldLoop (toks : list Token) (st : FieldState)
    : Result (Field * Parser) :=
  match toks with
  | [] => Throw UnexpectedEndOfLexerOutput
  | cur :: rest =>
      match fieldStep cur st with
      | Continue st' => fieldLoop rest st'
      | Return v => Ok (v, mkParser (Yields rest) (Some cur))
      | Raise e => Throw e
      end
  end.

Definition ReadNextCsvValue (p : Parser) : Result (Field * Parser) :=
  if TokenType_eqb (CurrentTokenType p) EndOfFile then Ok (None, p)
  else
    match tokens p with
    | Yields toks => fieldLoop toks (mkFieldState [] false false)
    | Fails e => Throw e
    end.

(** Number of tokens the generator still holds. *)
Definition pending (p : Parser) : nat :=
  match tokens p with
  | Yields l => length l
  | Fails _ => 0
  end.

(** [[...this.ReadNextCsvValues()]]: the values yielded by the do-while
    generator, collected. *)
Fixpoint ReadNextCsvValues_fuel (fuel : nat) (p : Parser)
    : Result (Row * Parser) :=
  match fuel with
  | 0 => OutOfFuel
  | S fuel' =>
      ' (nextValue, p1) <- ReadNextCsvValue p;;
      if TokenType_eqb (CurrentTokenType p1) Delimiter then
        ' (others, p2) <- ReadNextCsvValues_fuel fuel' p1;;
        Ok (nextValue :: others, p2)
      else Ok ([nextValue], p1)
  end.

Definition ReadNextCsvValues (p : Parser) : Result (Row * Parser) :=
  ReadNextCsvValues_fuel (S (pending p)) p.

(** [rowValues.length === 1 && rowValues[0] == null]. *)
Definition isSingleNull (rowValues : Row) : bool :=
  match rowValues with
  | [None] => true
  | _ => false
  end.

Definition ReadNextRow (p : Parser) : Result (option Row * Parser) :=
  if negb (HasMoreRows p) then Ok (None, p)
  else
    ' (rowValues, p1) <- ReadNextCsvValues p;;
    if negb (HasMoreRows p1) && isSingleNull rowValues
    then Ok (None, p1)
    else Ok (Some rowValues, p1).

Definition isNull {A} (o : option A) : bool :=
  match o with
  | None => true
  | Some _ => false
  end.

(** The [while (this.HasMoreRows)] loop of [ReadToEnd].  [rows.push] is
    given [nextRowValues] as it is, so an element of [rows] is a row or
    [null]. *)
Fixpoint ReadToEnd_fuel (fuel : nat) (p : Parser) (rows : list (option Row))
    : Result (list (option Row) * Parser) :=
  match fuel with
  | 0 => OutOfFuel
  | S fuel' =>
      if HasMoreRows p then
        ' (nextRowValues, p1) <- ReadNextRow p;;
        if HasMoreRows p1 || negb (isNull nextRowValues)
        then ReadToEnd_fuel fuel' p1 (rows ++ [nextRowValues])
        else ReadToEnd_fuel fuel' p1 rows
      else Ok (rows, p)
  end.

Definition ReadToEnd (p : Parser) : Result (list (option Row) * Parser) :=
  ReadToEnd_fuel (S (pending p)) p [].

(** [this.tokens = (function* () {})()]. *)
Definition Dispose (p : Parser) : Parser :=
  mkParser (Yields []) (current p).

Definition ParseSingleRow (singleRow : jsstring)
    (settings : option ParseSettings) : Result Row :=
  let parser := new_Parser singleRow settings in
  ' (firstRow, parser') <- ReadNextRow parser;;
  let disposed := Dispose parser' in
  Ok match firstRow with
     | Some r => r
     | None => []
     end.

Definition Parse (csv : jsstring) (settings : option ParseSettings)
    : Result (list (option Row)) :=
  let parser := new_Parser csv settings in
  ' (result, parser') <- ReadToEnd parser;;
  let disposed := Dispose parser' in
  Ok result.

End Parser.

(** ** Regular expressions built from one code unit

    [Writer] doubles the quote character with
    [value.replace(new RegExp(q, 'g'), q + q)], so the quote character is
    read as a regular-expression pattern.  The embedding covers patterns of
    one code unit (the spec's quote character); the pattern grammar is the
    one of a JavaScript engine for the web (no [u] flag), where [^ $ \ . * +
    ? ( ) [ |] are syntax characters and [] { }] alone stand for
    themselves. *)

Module RegExp.

Inductive Regex : Type :=
| Literal (c : code)     (* a pattern character: matches itself *)
| AnyChar                (* [.]: any code unit but a line terminator *)
| AtStart                (* [^]: the empty match at index 0 *)
| AtEnd                  (* [$]: the empty match at the end *)
| EmptyAlternatives.     (* [|]: the empty match at every index *)

Definition CARET : code := 94%N.
Definition DOLLAR : code := 36%N.
Definition BACKSLASH : code := 92%N.
Definition DOT : code := 46%N.
Definition STAR : code := 42%N.
Definition PLUS : code := 43%N.
Definition QUESTION : code := 63%N.
Definition LPAREN : code := 40%N.
Definition RPAREN : code := 41%N.
Definition LBRACKET : code := 91%N.
Definition BAR : code := 124%N.

Definition mem (c : code) (l : list code) : bool :=
  existsb (N.eqb c) l.

(** [new RegExp(pattern, 'g')]. *)
Definition compile (pattern : jsstring) : Result Regex :=
  match pattern with
  | [c] =>
      if mem c [STAR; PLUS; QUESTION; LPAREN; RPAREN; LBRACKET; BACKSLASH]
      then Throw RegExpSyntaxError
      else if N.eqb c DOT then Ok AnyChar
      else if N.eqb c CARET then Ok AtStart
      else if N.eqb c DOLLAR then Ok AtEnd
      else if N.eqb c BAR then Ok EmptyAlternatives
      else Ok (Literal c)
  | _ => Unmodelled
  end.

(** LF, CR, U+2028, U+2029. *)
Definition isLineTerminator (c : code) : bool :=
  mem c [10; 13; 8232; 8233]%N.

(** The replacement text of a replacement template: [$$] stands for one
    [$]; exact for templates where [$] occurs only doubled, as in
    [q + q] for a quote character [q]. *)
Fixpoint substitution (template : jsstring) : jsstring :=
  match template with
  | [] => []
  | c :: rest =>
      match rest with
      | c' :: rest' =>
          if N.eqb c DOLLAR && N.eqb c' DOLLAR
          then DOLLAR :: substitution rest'
          else c :: substitution rest
      | [] => [c]
      end
  end.

(** [s.replace(re, template)] for a global [re]. *)
Definition replaceAll (re : Regex) (template : jsstring) (s : jsstring)
    : jsstring :=
  let by_ := substitution template in
  match re with
  | Literal c => flat_map (fun x => if N.eqb x c then by_ else [x]) s
  | AnyChar => flat_map (fun x => if isLineTerminator x then [x] else by_) s
  | AtStart => by_ ++ s
  | AtEnd => s ++ by_
  | EmptyAlternatives => by_ ++ flat_map (fun x => x :: by_) s
  end.

(** [s.replace(new RegExp(pattern, 'g'), template)]. *)
Definition replace (s pattern template : jsstring) : Result jsstring :=
  re <- compile pattern;;
  Ok (replaceAll re template s).

End RegExp.

(** ** Writer *)

Module Writer.

(** The output sink.  [TextWriter.write] has an empty body in the source;
    the model keeps the text handed to it, in order. *)
Definition TextWriter := jsstring.

Definition write (w : TextWriter) (line : jsstring) : TextWriter :=
  w ++ line.

Record Writer : Type := mkWriter {
  Settings : ParseSettings;
  Writer_ : TextWriter;
  LineAlreadyStarted : bool
}.

Definition new_Writer (writer : TextWriter)
    (settings : option ParseSettings) : Writer :=
  mkWriter (Parser.orDefault settings) writer false.

Definition WrapValueForCsvUsingMinimalMode (value : option jsstring)
    (settings : ParseSettings) : Result (option jsstring) :=
  match value with
  | None => Ok None
  | Some [] => Ok (Some [])
  | Some value =>
      let containsQuote := includes value (QuotingCharacter settings) in
      if containsQuote
         || includes value (FieldDelimiter settings)
         || includes value (RowDelimiter settings)
      then
        inner <- (if containsQuote
                  then RegExp.replace value (QuotingCharacter settings)
                         (QuotingCharacter settings
                          ++ QuotingCharacter settings)
                  else Ok value);;
        Ok (Some (QuotingCharacter settings ++ inner
                  ++ QuotingCharacter settings))
      else Ok (Some value)
  end.

Definition WrapValueForCsvUsingQuoteAllMode (value : option jsstring)
    (settings : ParseSettings) : Result jsstring :=
  replaced <- match value with
              | None | Some [] => Ok []
              | Some value =>
                  RegExp.replace value (QuotingCharacter settings)
                    (QuotingCharacter settings ++ QuotingCharacter settings)
              end;;
  Ok (QuotingCharacter settings ++ replaced ++ QuotingCharacter settings).

Definition WrapValueForCsv (value : option jsstring)
    (settings : ParseSettings) : Result (option jsstring) :=
  match QuotingMode_ settings with
  | Minimal => WrapValueForCsvUsingMinimalMode value settings
  | QuoteAll =>
      v <- WrapValueForCsvUsingQuoteAllMode value settings;;
      Ok (Some v)
  end.

Definition WriteRawLine (w : Writer) (line : jsstring) : Writer :=
  let out := write (Writer_ w) line in
  let out := write out (RowDelimiter (Settings w)) in
  mkWriter (Settings w) out false.

(** [value ?? ''], the empty string for [null]. *)
Definition orEmpty (value : option jsstring) : jsstring :=
  match value with
  | Some v => v
  | None => []
  end.

Definition WriteRawValue (w : Writer) (value : option jsstring) : Writer :=
  let out := if LineAlreadyStarted w
             then write (Writer_ w) (FieldDelimiter (Settings w))
             else Writer_ w in
  let out := write out (orEmpty value) in
  mkWriter (Settings w) out true.

Definition Write (w : Writer) (value : option jsstring) : Result Writer :=
  wrapped <- WrapValueForCsv value (Settings w);;
  Ok (WriteRawValue w wrapped).

(** [for (const value of values) this.Write(value)]. *)
Fixpoint WriteAll (w : Writer) (values : list jsstring) : Result Writer :=
  match values with
  | [] => Ok w
  | value :: values' =>
      w' <- Write w (Some value);;
      WriteAll w' values'
  end.

Definition WriteLine (w : Writer) (values : list jsstring) : Result Writer :=
  w' <- WriteAll w values;;
  Ok (WriteRawLine w' []).

End Writer.

(** ** Writer: formattable values

    [IFormattable] is an interface of the caller: a value that turns itself
    into a string, given an optional format and a culture.  Of such a value
    the Writer uses its [toString], whether it is falsy (the empty string
    and [false] have a [toString] and are falsy), and whether it is a
    [Date] holding a valid time.  [FormattingCulture] is the Writer's
    public field of that name, ['en-US'] after construction. *)

Module Formattable.

Record CultureInfo : Type := mkCulture { name : jsstring }.

Record IFormattable : Type := mkFormattable {
  toString : option jsstring -> option CultureInfo -> jsstring;
  isFalsy : bool;      (* the value is falsy: [!value] is true *)
  isValidDate : bool   (* instanceof Date && !isNaN(getTime()) *)
}.

(** [!formattable]: [null], or a falsy value. *)
Definition absent (formattable : option IFormattable) : bool :=
  match formattable with
  | None => true
  | Some value => isFalsy value
  end.

Definition enUS : CultureInfo := mkCulture (js "en-US").

Section WithCulture.

Variable FormattingCulture : CultureInfo.

Definition GetDefaultFormatFor (formattable : IFormattable)
    : option jsstring :=
  if isValidDate formattable then Some (js "s") else None.

Definition WriteFormattable (w : Writer.Writer)
    (formattable : option IFormattable) (format : option jsstring)
    : Result Writer.Writer :=
  match formattable with
  | None => Ok (Writer.WriteRawValue w None)
  | Some formattable =>
      if absent (Some formattable) then Ok (Writer.WriteRawValue w None)
      else
        let format := match format with
                      | None => GetDefaultFormatFor formattable
                      | Some _ => format
                      end in
        let formatted :=
          toString formattable format (Some FormattingCulture) in
        Writer.Write w (Some formatted)
  end.

(** [for (const value of values) this.WriteFormattable(value, null)]. *)
Fixpoint WriteAllFormattable (w : Writer.Writer)
    (values : list IFormattable) : Result Writer.Writer :=
  match values with
  | [] => Ok w
  | value :: values' =>
      w' <- WriteFormattable w (Some value) None;;
      WriteAllFormattable w' values'
  end.

Definition WriteLineFormattable (w : Writer.Writer)
    (values : list IFormattable) : Result Writer.Writer :=
  w' <- WriteAllFormattable w values;;
  Ok (Writer.WriteRawLine w' []).

(** The string a value turns itself into when no format is given. *)
Definition formatted (value : IFormattable) : jsstring :=
  toString value (GetDefaultFormatFor value) (Some FormattingCulture).

(** The string a value counts for when written: nothing for a falsy
    value, its own string otherwise. *)
Definition effective (value : IFormattable) : jsstring :=
  if isFalsy value then [] else formatted value.

(** [WriteLineFormattable] called for each line in turn on the same
    Writer. *)
Fixpoint WriteLinesFormattable (w : Writer.Writer)
    (lines : list (list IFormattable)) : Result Writer.Writer :=
  match lines with
  | [] => Ok w
  | values :: lines' =>
      w' <- WriteLineFormattable w values;;
      WriteLinesFormattable w' lines'
  end.

End WithCulture.

End Formattable.

(** ** Vocabulary of the properties *)

(** The special tokens of a Lexer built with the default settings. *)
Definition DelimiterD : Token := mkToken Delimiter (Some [COMMA]).
Definition QuoteD : Token := mkToken Quote (Some [DQUOTE]).
Definition LineSeparatorD : Token := mkToken LineSeparator (Some [CR; LF]).
Definition EndOfFileD : Token := mkToken EndOfFile None.

(** Every occurrence of the character [q] doubled, the rest unchanged. *)
Definition doubled (q : code) (t : jsstring) : jsstring :=
  flat_map (fun x => if N.eqb x q then [q; q] else [x]) t.

(** What a pending buffer adds to the pieces of a field value. *)
Definition textPiece (buffer : jsstring) : list jsstring :=
  match buffer with
  | [] => []
  | _ => [buffer]
  end.

(** The escaping round trip at the text [t]: wrapping succeeds and the
    wrapped text parses, as a single row, to the one field [t]. *)
Definition roundTrips (settings : ParseSettings) (t : jsstring) : Prop :=
  exists wrapped,
    Writer.WrapValueForCsv (Some t) settings = Ok (Some wrapped)
    /\ Parser.ParseSingleRow wrapped (Some settings) = Ok [Some t].

(** A character that the Lexer built with [settings] takes neither for
    the field delimiter nor for the quote character. *)
Definition ordinary (settings : ParseSettings) (c : code) : Prop :=
  [c] <> FieldDelimiter settings /\ [c] <> QuotingCharacter settings.

(** QuoteAll mode, otherwise the default settings. *)
Definition quoteAllSettings : ParseSettings :=
  mkSettings [COMMA] [CR; LF] [DQUOTE] QuoteAll.

(** The text a fresh Writer hands to its sink for one [WriteLine]. *)
Definition written (settings : ParseSettings) (values : list jsstring)
    : Result jsstring :=
  w <- Writer.WriteLine (Writer.new_Writer [] (Some settings)) values;;
  Ok (Writer.Writer_ w).

(** [parse(write(values))]. *)
Definition writeThenParse (settings : ParseSettings)
    (values : list jsstring) : Result (list (option Row)) :=
  text <- written settings values;;
  Parser.Parse text (Some settings).

(** Minimal mode with the quote character [q], the rest as by default. *)
Definition settingsWithQuote (q : code) : ParseSettings :=
  mkSettings [COMMA] [CR; LF] [q] Minimal.

(** The texts of the concrete scenarios. *)
Definition text_a_quote_b_quote : jsstring :=
  js "a" ++ [DQUOTE] ++ js "b" ++ [DQUOTE].
Definition text_a_quote_b : jsstring := js "a" ++ [DQUOTE] ++ js "b".
Definition text_ab_crlf : jsstring := js "a,b" ++ [CR; LF].
Definition text_a_cr_b_c : jsstring := js "a" ++ [CR] ++ js "b,c".
Definition text_a_cr_b : jsstring := js "a" ++ [CR] ++ js "b".
Definition text_quoteAll_line : jsstring :=
  [DQUOTE] ++ js "a,b" ++ [DQUOTE] ++ [COMMA] ++ [DQUOTE; DQUOTE]
  ++ [CR; LF].

(** ** Vocabulary of the further properties *)

(** The text the token sequence [toks] stands for: the values of its
    tokens, in order. *)
Definition textOf (toks : list Token) : jsstring :=
  concat (List.map Parser.valueOrEmpty toks).

(** A token of the body of a token sequence: Text, Delimiter, Quote or
    LineSeparator, with a value that is not empty. *)
Definition bodyToken (t : Token) : Prop :=
  Type_ t <> NotSet /\ Type_ t <> EndOfFile
  /\ exists v, Value t = Some v /\ v <> [].

Definition isText (t : Token) : bool := TokenType_eqb (Type_ t) Text.

(** Two Text tokens in a row somewhere in [toks]. *)
Fixpoint adjacentText (toks : list Token) : bool :=
  match toks with
  | [] => false
  | t1 :: rest =>
      match rest with
      | [] => false
      | t2 :: _ => (isText t1 && isText t2) || adjacentText rest
      end
  end.

(** Settings that the Lexer and the Parser cannot tell apart: they differ
    at most in the quoting mode. *)
Definition sameDelimiters (s1 s2 : ParseSettings) : Prop :=
  FieldDelimiter s1 = FieldDelimiter s2
  /\ RowDelimiter s1 = RowDelimiter s2
  /\ QuotingCharacter s1 = QuotingCharacter s2.

(** A sequence that does not start with a Text token. *)
Definition startsSpecial (toks : list Token) : Prop :=
  match toks with
  | [] => False
  | t :: _ => isText t = false
  end.

(** A token sequence as the Lexer leaves it to the Parser: a suffix of a
    body followed by EndOfFile. *)
Fixpoint lexed (toks : list Token) : Prop :=
  match toks with
  | [] => True
  | t :: rest =>
      match rest with
      | [] => t = EndOfFileD
      | _ :: _ => bodyToken t /\ lexed rest
      end
  end.

(** A parser reading from such a sequence. *)
Definition readsLexed (p : Parser.Parser) : Prop :=
  exists toks, Parser.tokens p = Yields toks /\ lexed toks.

(** A field as the Parser returns it: [null] or a string that is not
    empty. *)
Definition goodField (f : Field) : Prop := f <> Some [].

(** A row as [ReadToEnd] returns it under a predicate [V] on its fields. *)
Definition rowOf (V : Field -> Prop) (r : option Row) : Prop :=
  exists row, r = Some row /\ row <> [] /\ Forall V row.

(** No token of the sequence is a Quote token. *)
Definition quoteFree (toks : list Token) : Prop :=
  Forall (fun t => Type_ t <> Quote) toks.

(** A parser reading from a lexed sequence without Quote tokens, which is
    exhausted only when the current token is EndOfFile. *)
Definition readsQuoteFree (p : Parser.Parser) : Prop :=
  exists toks,
    Parser.tokens p = Yields toks /\ lexed toks /\ quoteFree toks
    /\ (toks = [] -> Parser.CurrentTokenType p = EndOfFile).

(** ** Vocabulary of the round trips between Writer and Parser *)

(** What the Parser makes of a written value: the empty string comes back
    as [null]. *)
Definition fieldOf (t : jsstring) : Field :=
  match t with
  | [] => None
  | _ => Some t
  end.

(** What the Parser makes of a written line: a line without values comes
    back as one [null] field. *)
Definition rowOfValues (values : list jsstring) : Row :=
  match values with
  | [] => [None]
  | _ => List.map fieldOf values
  end.

(** Fields one after the other, each but the first of a line preceded by
    the field delimiter [fd]. *)
Fixpoint fieldsText (fd : jsstring) (started : bool) (ws : list jsstring)
    : jsstring :=
  match ws with
  | [] => []
  | w :: ws' => (if started then fd else []) ++ w ++ fieldsText fd true ws'
  end.

(** The wrapped form of a value under the default settings. *)
Definition wrapMinimal (t : jsstring) : jsstring :=
  if includes t [DQUOTE] || includes t [COMMA] || includes t [CR; LF]
  then DQUOTE :: doubled DQUOTE t ++ [DQUOTE]
  else t.

(** The wrapped form of a value under [quoteAllSettings]. *)
Definition wrapQuoteAll (t : jsstring) : jsstring :=
  DQUOTE :: doubled DQUOTE t ++ [DQUOTE].

(** The text of one line of values wrapped by [wrap], under delimiters
    [fd] and [rd]. *)
Definition lineText (fd rd : jsstring) (wrap : jsstring -> jsstring)
    (values : list jsstring) : jsstring :=
  fieldsText fd false (List.map wrap values) ++ rd.

(** [WriteLine] called for each line in turn on the same Writer. *)
Fixpoint WriteLines (w : Writer.Writer) (lines : list (list jsstring))
    : Result Writer.Writer :=
  match lines with
  | [] => Ok w
  | values :: lines' =>
      w' <- Writer.WriteLine w values;;
      WriteLines w' lines'
  end.

(** The text a fresh Writer hands to its sink for these lines. *)
Definition writtenLines (settings : ParseSettings)
    (lines : list (list jsstring)) : Result jsstring :=
  w <- WriteLines (Writer.new_Writer [] (Some settings)) lines;;
  Ok (Writer.Writer_ w).

(** What follows a field in a written line. *)
Inductive Separator : Type := AfterField | AfterLine.

Definition separatorText (sep : Separator) : jsstring :=
  match sep with
  | AfterField => [COMMA]
  | AfterLine => [CR; LF]
  end.

Definition separatorToken (sep : Separator) : Token :=
  match sep with
  | AfterField => DelimiterD
  | AfterLine => LineSeparatorD
  end.

(** A parser under the default settings about to read [text], its current
    token not being EndOfFile. *)
Definition about_to_read (p : Parser.Parser) (text : jsstring) : Prop :=
  Parser.tokens p = Yields (Lexer.scanLoop defaultSettings text [])
  /\ TokenType_eqb (Parser.CurrentTokenType p) EndOfFile = false.

(** [parse(write(lines))]: the lines written by a fresh Writer, parsed under
    the same settings. *)
Definition writeLinesThenParse (settings : ParseSettings)
    (lines : list (list jsstring)) : Result (list (option Row)) :=
  text <- writtenLines settings lines;;
  Parser.Parse text (Some settings).

(** The characters a regular expression does not read as themselves when
    they stand alone as a pattern. *)
Definition patternSyntax : list code :=
  [RegExp.CARET; RegExp.DOLLAR; RegExp.BACKSLASH; RegExp.DOT; RegExp.STAR;
   RegExp.PLUS; RegExp.QUESTION; RegExp.LPAREN; RegExp.RPAREN;
   RegExp.LBRACKET; RegExp.BAR].

(** ** Vocabulary of the special characters *)

(** The token the Lexer yields for the character [c] when it reads it as
    the current character and [c] is the field delimiter or the quote
    character; the field delimiter is tested first. *)
Definition specialToken (settings : ParseSettings) (c : code)
    : option Token :=
  if jseq [c] (FieldDelimiter settings)
  then Some (mkToken Delimiter (Some [c]))
  else if jseq [c] (QuotingCharacter settings)
  then Some (mkToken Quote (Some [c]))
  else None.

(** The look-ahead of the Lexer never consumes a field delimiter or a
    quote character: when the row delimiter has a second character and its
    first character is an ordinary one (so that the look-ahead is reached),
    the second character is ordinary too.  So it is when the row delimiter
    has one character, and under the default settings. *)
Definition secondIsOrdinary (settings : ParseSettings) : Prop :=
  forall f c2,
    Lexer.isFirst settings f = true -> ordinary settings f ->
    Lexer.second settings = Some c2 -> ordinary settings c2.

(** Settings whose row delimiter is CR followed by the field delimiter. *)
Definition settingsRowEndsInComma : ParseSettings :=
  mkSettings [COMMA] [CR; COMMA] [DQUOTE] Minimal.

Definition text_a_cr_comma_b : jsstring := js "a" ++ [CR; COMMA] ++ js "b".

(** ** Vocabulary of lines of any values *)

(** The text of one line under the default delimiters, each value written
    as [wrap] says. *)
Definition writtenLine {A : Type} (wrap : A -> jsstring) (values : list A)
    : jsstring :=
  fieldsText [COMMA] false (List.map wrap values) ++ [CR; LF].

(** The row read back for a line whose values read back as [field] says;
    a line without values reads back as one [null] field. *)
Definition readRow {A : Type} (field : A -> Field) (values : list A) : Row :=
  match values with
  | [] => [None]
  | _ => List.map field values
  end.


(** What is written for a formattable value in QuoteAll mode: nothing for
    a falsy value, its string between quotes otherwise. *)
Definition wrapFormattableQuoteAll (culture : Formattable.CultureInfo)
    (value : Formattable.IFormattable) : jsstring :=
  if Formattable.isFalsy value then []
  else wrapQuoteAll (Formattable.formatted culture value).

(** The field a written formattable value reads back as. *)
Definition fieldOfFormattable (culture : Formattable.CultureInfo)
    (value : Formattable.IFormattable) : Field :=
  fieldOf (Formattable.effective culture value).

(** The text a fresh Writer hands to its sink for these lines of
    formattable values. *)
Definition writtenFormattableLines (culture : Formattable.CultureInfo)
    (settings : ParseSettings)
    (lines : list (list Formattable.IFormattable)) : Result jsstring :=
  w <- Formattable.WriteLinesFormattable culture
         (Writer.new_Writer [] (Some settings)) lines;;
  Ok (Writer.Writer_ w).

(** The lines of formattable values written by a fresh Writer, parsed
    under the same settings. *)
Definition writeFormattableThenParse (culture : Formattable.CultureInfo)
    (settings : ParseSettings)
    (lines : list (list Formattable.IFormattable))
    : Result (list (option Row)) :=
  text <- writtenFormattableLines culture settings lines;;
  Parser.Parse text (Some settings).

(** * Properties *)

(** ** Strings *)

Lemma jseq_eq (a b : jsstring) : jseq a b = true <-> a = b.
Proof.
  revert b; induction a as [|x a IH]; intros [|y b]; simpl;
    try (split; [discriminate | discriminate]); try tauto.
  rewrite andb_true_iff, N.eqb_eq, IH.
  split; [intros [-> ->]; reflexivity | intros H; inversion H; auto].
Qed.

Lemma jseq_single (c d : code) : jseq [c] [d] = N.eqb c d.
Proof. simpl. apply andb_true_r. Qed.

Lemma includes_single (s : jsstring) (c : code) :
  includes s [c] = false <-> ~ In c s.
Proof.
  induction s as [|x s IH]; simpl; [tauto|].
  rewrite orb_false_iff, andb_true_r, IH, N.eqb_neq. intuition congruence.
Qed.

Lemma includes_cons (x : code) (s sub : jsstring) :
  includes (x :: s) sub = false ->
  startsWith (x :: s) sub = false /\ includes s sub = false.
Proof. simpl includes. intros H. apply orb_false_iff in H. exact H. Qed.

Lemma join_snoc (parts : list jsstring) (s : jsstring) :
  join (parts ++ [s]) = join parts ++ s.
Proof. unfold join. rewrite concat_app. simpl. now rewrite app_nil_r. Qed.

(** ** The reader and the generator behind the structural loops *)

Lemma unread_read (r : TextReader) :
  match unread r with
  | [] => read r = (None, r)
  | c :: rest =>
      exists r', read r = (Some c, r') /\ unread r' = rest
                 /\ peek r' = hd_error rest
  end.
Proof.
  destruct r as [s n]. unfold unread, read, peek. simpl.
  revert n. induction s as [|x s IH]; intros n.
  - destruct n; reflexivity.
  - destruct n as [|n]; simpl.
    + eexists. split; [reflexivity|]. simpl. split; [reflexivity|].
      destruct s; reflexivity.
    + specialize (IH n). destruct (skipn n s) as [|c rest] eqn:E.
      * destruct (nth_error s n); [discriminate|]. inversion IH. reflexivity.
      * destruct IH as (r' & Hr & Hu & Hp).
        destruct (nth_error s n) as [d|]; [|discriminate].
        inversion Hr; subst. simpl in *.
        eexists. split; [reflexivity|]. simpl. auto.
Qed.

Lemma fieldLoop_moveNext (p : Parser.Parser) (toks : list Token)
    (st : Parser.FieldState) :
  Parser.tokens p = Yields toks ->
  Parser.fieldLoop toks st =
  ' (more, p') <- Parser.moveNext p;;
  if more then
    match Parser.fieldStep (Parser.CurrentToken p') st with
    | Parser.Continue st' => Parser.fieldLoop (tl toks) st'
    | Parser.Return v => Ok (v, p')
    | Parser.Raise e => Throw e
    end
  else Throw UnexpectedEndOfLexerOutput.
Proof.
  intros H. unfold Parser.moveNext. rewrite H.
  destruct toks as [|t rest]; reflexivity.
Qed.

(** ** Termination of the Parser's loops: the fuel never runs out *)

Lemma fieldLoop_total (toks : list Token) (st : Parser.FieldState) :
  (exists e, Parser.fieldLoop toks st = Throw e) \/
  (exists v cur rest,
      Parser.fieldLoop toks st
      = Ok (v, Parser.mkParser (Yields rest) (Some cur))
      /\ length rest < length toks).
Proof.
  revert st; induction toks as [|cur rest IH]; intros st; simpl.
  - left; eauto.
  - destruct (Parser.fieldStep cur st) as [st'|v|e].
    + destruct (IH st') as [[e H]|(v & c & r & H & L)].
      * left; eauto.
      * right. exists v, c, r. split; [exact H | lia].
    + right. exists v, cur, rest. split; [reflexivity | lia].
    + left; eauto.
Qed.

Lemma ReadNextCsvValue_total (p : Parser.Parser) :
  (exists e, Parser.ReadNextCsvValue p = Throw e) \/
  (exists v p1,
      Parser.ReadNextCsvValue p = Ok (v, p1)
      /\ (Parser.CurrentTokenType p1 = EndOfFile
          \/ Parser.pending p1 < Parser.pending p)).
Proof.
  unfold Parser.ReadNextCsvValue.
  destruct (TokenType_eqb (Parser.CurrentTokenType p) EndOfFile) eqn:E.
  - right. exists None, p. split; [reflexivity|]. left.
    destruct (Parser.CurrentTokenType p); try discriminate; reflexivity.
  - destruct p as [[toks|e] cur]; simpl; [|left; eauto].
    destruct (fieldLoop_total toks (Parser.mkFieldState [] false false))
      as [[e H]|(v & c & r & H & L)].
    + left; eauto.
    + right. eexists _, _. split; [exact H|]. right. exact L.
Qed.

Lemma ReadNextCsvValues_fuel_total (fuel : nat) (p : Parser.Parser) :
  Parser.pending p < fuel ->
  (exists e, Parser.ReadNextCsvValues_fuel fuel p = Throw e) \/
  (exists row p1,
      Parser.ReadNextCsvValues_fuel fuel p = Ok (row, p1)
      /\ (Parser.CurrentTokenType p1 = EndOfFile
          \/ Parser.pending p1 < Parser.pending p)).
Proof.
  revert p; induction fuel as [|fuel IH]; intros p Hf; [lia|].
  simpl.
  destruct (ReadNextCsvValue_total p) as [[e H]|(v & p1 & H & Hp)];
    rewrite H; simpl; [left; eauto|].
  destruct (TokenType_eqb (Parser.CurrentTokenType p1) Delimiter) eqn:E.
  - assert (Hlt : Parser.pending p1 < Parser.pending p).
    { destruct Hp as [Hp|Hp]; [|exact Hp].
      rewrite Hp in E; discriminate. }
    destruct (IH p1) as [[e H1]|(row & p2 & H1 & Hp2)]; [lia | |];
      rewrite H1; simpl; [left; eauto|].
    right. eexists _, _. split; [reflexivity|].
    destruct Hp2; [left; assumption | right; lia].
  - right. eexists _, _. split; [reflexivity | exact Hp].
Qed.

Lemma ReadNextRow_total (p : Parser.Parser) :
  Parser.HasMoreRows p = true ->
  (exists e, Parser.ReadNextRow p = Throw e) \/
  (exists row p1,
      Parser.ReadNextRow p = Ok (row, p1)
      /\ (Parser.HasMoreRows p1 = false
          \/ Parser.pending p1 < Parser.pending p)).
Proof.
  intros Hm. unfold Parser.ReadNextRow, Parser.ReadNextCsvValues.
  rewrite Hm. simpl negb. cbv iota.
  destruct (ReadNextCsvValues_fuel_total (S (Parser.pending p)) p)
    as [[e H]|(row & p1 & H & Hp)]; [lia | |]; rewrite H; simpl;
    [left; eauto|].
  assert (Hp' : Parser.HasMoreRows p1 = false
                \/ Parser.pending p1 < Parser.pending p).
  { destruct Hp as [Hp|Hp]; [left | right; exact Hp].
    unfold Parser.HasMoreRows. rewrite Hp. reflexivity. }
  right.
  destruct (negb (Parser.HasMoreRows p1) && Parser.isSingleNull row);
    eexists _, _; (split; [reflexivity | exact Hp']).
Qed.

Lemma ReadToEnd_fuel_total (fuel : nat) (p : Parser.Parser)
    (rows : list (option Row)) :
  Parser.pending p < fuel ->
  (exists e, Parser.ReadToEnd_fuel fuel p rows = Throw e) \/
  (exists result p1, Parser.ReadToEnd_fuel fuel p rows = Ok (result, p1)).
Proof.
  revert p rows; induction fuel as [|fuel IH]; intros p rows Hf; [lia|].
  simpl. destruct (Parser.HasMoreRows p) eqn:Hm; [|right; eauto].
  destruct (ReadNextRow_total p Hm) as [[e H]|(row & p1 & H & Hp)];
    rewrite H; simpl; [left; eauto|].
  destruct Hp as [Hp|Hp].
  - rewrite Hp. simpl.
    destruct fuel as [|fuel]; [|simpl; rewrite Hp;
      destruct (negb (Parser.isNull row)); right; eauto].
    exfalso. assert (Parser.pending p = 0) by lia.
    (* with no token left, a parser that has more rows cannot return *)
    unfold Parser.ReadNextRow, Parser.ReadNextCsvValues in H.
    rewrite Hm in H. simpl negb in H. cbv iota in H.
    destruct (ReadNextCsvValues_fuel_total (S (Parser.pending p)) p)
      as [[e H1]|(r & p2 & H1 & Hp2)]; [lia | |]; rewrite H1 in H;
      simpl in H; [discriminate|].
    rewrite H0 in H1. simpl in H1.
    unfold Parser.ReadNextCsvValue in H1.
    unfold Parser.HasMoreRows in Hm. apply negb_true_iff in Hm.
    rewrite Hm in H1.
    destruct p as [[[|t l]|e] cur]; simpl in *; discriminate.
  - destruct (Parser.HasMoreRows p1 || negb (Parser.isNull row));
      apply IH; lia.
Qed.

Lemma Parse_total (csv : jsstring) (settings : option ParseSettings) :
  (exists e, Parser.Parse csv settings = Throw e) \/
  (exists rows, Parser.Parse csv settings = Ok rows).
Proof.
  unfold Parser.Parse, Parser.ReadToEnd.
  destruct (ReadToEnd_fuel_total
              (S (Parser.pending (Parser.new_Parser csv settings)))
              (Parser.new_Parser csv settings) [])
    as [[e H]|(r & p1 & H)]; [lia | |]; rewrite H; simpl; eauto.
Qed.

(** ** The Lexer under the default settings *)

Lemma scanD_nil (buffer : jsstring) :
  Lexer.scanLoop defaultSettings [] buffer = Lexer.flush buffer ++ [EndOfFileD].
Proof. reflexivity. Qed.

Lemma scanD_comma (rest buffer : jsstring) :
  Lexer.scanLoop defaultSettings (COMMA :: rest) buffer
  = Lexer.flush buffer
    ++ DelimiterD :: Lexer.scanLoop defaultSettings rest [].
Proof. reflexivity. Qed.

Lemma scanD_quote (rest buffer : jsstring) :
  Lexer.scanLoop defaultSettings (DQUOTE :: rest) buffer
  = Lexer.flush buffer ++ QuoteD :: Lexer.scanLoop defaultSettings rest [].
Proof. reflexivity. Qed.

Lemma scanD_crlf (rest buffer : jsstring) :
  Lexer.scanLoop defaultSettings (CR :: LF :: rest) buffer
  = Lexer.flush buffer
    ++ LineSeparatorD :: Lexer.scanLoop defaultSettings rest [].
Proof. reflexivity. Qed.

Lemma scanD_lone_cr (rest buffer : jsstring) :
  startsWith rest [LF] = false ->
  Lexer.scanLoop defaultSettings (CR :: rest) buffer
  = Lexer.scanLoop defaultSettings rest (buffer ++ [CR]).
Proof.
  intros H. destruct rest as [|c rest]; [reflexivity|].
  change (N.eqb LF c && true = false) in H. rewrite andb_true_r in H.
  change (Lexer.scanLoop defaultSettings (CR :: c :: rest) buffer)
    with (if N.eqb c LF
          then Lexer.yieldSpecial buffer
                 (Lexer.LineSeparatorToken defaultSettings)
                 (Lexer.scanLoop defaultSettings rest [])
          else Lexer.scanLoop defaultSettings (c :: rest) (buffer ++ [CR])).
  rewrite N.eqb_sym, H. reflexivity.
Qed.

Lemma scanD_plain (c : code) (rest buffer : jsstring) :
  c <> COMMA -> c <> DQUOTE -> c <> CR ->
  Lexer.scanLoop defaultSettings (c :: rest) buffer
  = Lexer.scanLoop defaultSettings rest (buffer ++ [c]).
Proof.
  intros H1 H2 H3.
  apply N.eqb_neq in H1, H2, H3.
  cbn [Lexer.scanLoop].
  change (FieldDelimiter defaultSettings) with [COMMA].
  change (QuotingCharacter defaultSettings) with [DQUOTE].
  change (Lexer.isFirst defaultSettings c) with (N.eqb c CR).
  rewrite !jseq_single, H1, H2, H3. reflexivity.
Qed.


(** ** Reading a quoted field back *)

Lemma fieldLoop_flush_quoted (buffer : jsstring) (toks : list Token)
    (nv : list jsstring) (q : bool) :
  Parser.fieldLoop (Lexer.flush buffer ++ toks) (Parser.mkFieldState nv q true)
  = Parser.fieldLoop toks
      (Parser.mkFieldState (nv ++ textPiece buffer) q true).
Proof.
  destruct buffer as [|c b]; simpl; [now rewrite app_nil_r | reflexivity].
Qed.

Lemma join_textPiece (nv : list jsstring) (buffer : jsstring) :
  join (nv ++ textPiece buffer) = join nv ++ buffer.
Proof.
  destruct buffer as [|c b]; simpl textPiece.
  - now rewrite !app_nil_r.
  - apply join_snoc.
Qed.

Lemma textPiece_nil (nv : list jsstring) (buffer : jsstring) :
  nv ++ textPiece buffer = [] -> nv = [] /\ buffer = [].
Proof.
  destruct buffer as [|c b]; simpl; intros H.
  - rewrite app_nil_r in H. auto.
  - destruct nv; discriminate.
Qed.

Lemma doubled_other (q c : code) (t : jsstring) :
  c <> q -> doubled q (c :: t) = c :: doubled q t.
Proof.
  intros H. apply N.eqb_neq in H. unfold doubled. simpl. now rewrite H.
Qed.

Lemma doubled_same (q : code) (t : jsstring) :
  doubled q (q :: t) = q :: q :: doubled q t.
Proof. unfold doubled. simpl. now rewrite N.eqb_refl. Qed.

Lemma doubled_absent (q : code) (t : jsstring) :
  ~ In q t -> doubled q t = t.
Proof.
  induction t as [|c t IH]; intros H; [reflexivity|].
  rewrite doubled_other; [rewrite IH; auto|]; simpl in H; intuition.
Qed.

Lemma startsWith_doubled_LF (t : jsstring) :
  startsWith t [LF] = false ->
  startsWith (doubled DQUOTE t ++ [DQUOTE]) [LF] = false.
Proof.
  destruct t as [|c t]; [reflexivity|]. intros H.
  destruct (N.eq_dec c DQUOTE) as [->|Hc].
  - rewrite doubled_same. reflexivity.
  - rewrite doubled_other by exact Hc. exact H.
Qed.

Lemma startsWith_LF_true (t : jsstring) :
  startsWith t [LF] = true -> exists t', t = LF :: t'.
Proof.
  destruct t as [|c t]; [discriminate|].
  change (N.eqb LF c && true = true -> exists t', c :: t = LF :: t').
  rewrite andb_true_r, N.eqb_eq. intros <-. eauto.
Qed.

Lemma closing_quote (nv : list jsstring) :
  nv <> [] ->
  Parser.fieldLoop [QuoteD; EndOfFileD] (Parser.mkFieldState nv true true)
  = Ok (Some (join nv), Parser.mkParser (Yields []) (Some EndOfFileD)).
Proof. destruct nv; [contradiction | reflexivity]. Qed.

Local Arguments join : simpl never.

Lemma quoted_body (n : nat) :
  forall (t buffer : jsstring) (nv : list jsstring),
    length t <= n ->
    nv <> [] \/ buffer <> [] \/ t <> [] ->
    Parser.fieldLoop
      (Lexer.scanLoop defaultSettings (doubled DQUOTE t ++ [DQUOTE]) buffer)
      (Parser.mkFieldState nv true true)
    = Ok (Some (join nv ++ buffer ++ t),
          Parser.mkParser (Yields []) (Some EndOfFileD)).
Proof.
  induction n as [|n IH]; intros t buffer nv Hlen Hne.
  all: destruct t as [|c t]; [|try (simpl in Hlen; lia)].
  (* the closing quote, then the end of the input *)
  1, 2: change (doubled DQUOTE [] ++ [DQUOTE]) with [DQUOTE];
    rewrite scanD_quote, fieldLoop_flush_quoted;
    change (Lexer.scanLoop defaultSettings [] []) with [EndOfFileD];
    rewrite closing_quote, join_textPiece, app_nil_r;
    [ reflexivity
    | intros E; apply textPiece_nil in E; destruct E; subst;
      intuition congruence ].
  simpl in Hlen.
  destruct (N.eq_dec c COMMA) as [->|Hcomma].
  { (* the delimiter inside the quotes: its text is kept *)
    rewrite doubled_other by discriminate.
    rewrite <- app_comm_cons, scanD_comma, fieldLoop_flush_quoted. simpl.
    rewrite IH; [|lia|left; destruct (nv ++ textPiece buffer); discriminate].
    rewrite join_snoc, join_textPiece. simpl.
    now rewrite <- !app_assoc. }
  destruct (N.eq_dec c DQUOTE) as [->|Hquote].
  { (* a doubled quote: leave quote mode, then append the quote *)
    rewrite doubled_same.
    rewrite <- !app_comm_cons, scanD_quote, scanD_quote,
      fieldLoop_flush_quoted. simpl.
    rewrite IH; [|lia|left; destruct (nv ++ textPiece buffer); discriminate].
    rewrite join_snoc, join_textPiece. simpl.
    now rewrite <- !app_assoc. }
  rewrite doubled_other by exact Hquote.
  rewrite <- app_comm_cons.
  destruct (N.eq_dec c CR) as [->|Hcr].
  - destruct (startsWith t [LF]) eqn:Hlf.
    + (* the row delimiter inside the quotes: its text is kept *)
      apply startsWith_LF_true in Hlf. destruct Hlf as [t' ->].
      rewrite doubled_other by discriminate.
      rewrite <- app_comm_cons, scanD_crlf, fieldLoop_flush_quoted. simpl.
      simpl in Hlen.
      rewrite IH; [|lia|left; destruct (nv ++ textPiece buffer); discriminate].
      rewrite join_snoc, join_textPiece. simpl.
      now rewrite <- !app_assoc.
    + (* a lone CR joins the buffer *)
      rewrite scanD_lone_cr by (apply startsWith_doubled_LF; exact Hlf).
      rewrite IH; [|lia|right; left; destruct buffer; discriminate].
      now rewrite <- !app_assoc.
  - rewrite scanD_plain by assumption.
    rewrite IH; [|lia|right; left; destruct buffer; discriminate].
    now rewrite <- !app_assoc.
Qed.

(** ** Reading an unquoted field back *)

Lemma scanD_unquoted (t : jsstring) :
  forall buffer,
    ~ In COMMA t -> ~ In DQUOTE t -> includes t [CR; LF] = false ->
    Lexer.scanLoop defaultSettings t buffer
    = Lexer.flush (buffer ++ t) ++ [EndOfFileD].
Proof.
  induction t as [|c t IH]; intros buffer Hc Hq Hr.
  - rewrite app_nil_r. apply scanD_nil.
  - apply includes_cons in Hr. destruct Hr as [Hs Hr].
    simpl in Hc, Hq.
    replace (buffer ++ c :: t) with ((buffer ++ [c]) ++ t)
      by now rewrite <- app_assoc.
    destruct (N.eq_dec c CR) as [->|Hcr].
    + rewrite scanD_lone_cr by exact Hs. apply IH; tauto.
    + rewrite scanD_plain by intuition. apply IH; tauto.
Qed.

Lemma fieldLoop_unquoted (s : jsstring) :
  s <> [] ->
  Parser.fieldLoop (Lexer.flush s ++ [EndOfFileD])
    (Parser.mkFieldState [] false false)
  = Ok (Some s, Parser.mkParser (Yields []) (Some EndOfFileD)).
Proof.
  destruct s as [|c s]; [contradiction|]. intros _. simpl.
  unfold join. simpl. now rewrite app_nil_r.
Qed.

(** ** From one field to [ParseSingleRow] *)

Lemma ParseSingleRow_one_field (text v : jsstring) :
  Parser.fieldLoop (Lexer.scanLoop defaultSettings text [])
    (Parser.mkFieldState [] false false)
  = Ok (Some v, Parser.mkParser (Yields []) (Some EndOfFileD)) ->
  Parser.ParseSingleRow text (Some defaultSettings) = Ok [Some v].
Proof.
  intros H.
  unfold Parser.ParseSingleRow, Parser.ReadNextRow, Parser.ReadNextCsvValues.
  change (Parser.HasMoreRows (Parser.new_Parser text (Some defaultSettings)))
    with true.
  cbn [negb Parser.ReadNextCsvValues_fuel].
  unfold Parser.ReadNextCsvValue.
  change (Parser.CurrentTokenType
            (Parser.new_Parser text (Some defaultSettings))) with NotSet.
  change (Parser.tokens (Parser.new_Parser text (Some defaultSettings)))
    with (Yields (Lexer.scanLoop defaultSettings text [])).
  cbn [TokenType_eqb TokenType_value Nat.eqb].
  rewrite H. reflexivity.
Qed.

(** ** Wrapping under the default settings *)

Lemma replace_quote_default (t : jsstring) :
  RegExp.replace t [DQUOTE] [DQUOTE; DQUOTE] = Ok (doubled DQUOTE t).
Proof. reflexivity. Qed.

Lemma WrapValueForCsv_default (t : jsstring) :
  t <> [] ->
  Writer.WrapValueForCsv (Some t) defaultSettings
  = Ok (Some (if includes t [DQUOTE] || includes t [COMMA]
                 || includes t [CR; LF]
              then DQUOTE :: doubled DQUOTE t ++ [DQUOTE]
              else t)).
Proof.
  destruct t as [|c t]; [contradiction|]. intros _.
  unfold Writer.WrapValueForCsv, Writer.WrapValueForCsvUsingMinimalMode.
  cbn [QuotingMode_ QuotingCharacter FieldDelimiter RowDelimiter
       defaultSettings].
  destruct (includes (c :: t) [DQUOTE]) eqn:Eq.
  - rewrite replace_quote_default. reflexivity.
  - apply includes_single in Eq.
    rewrite (doubled_absent DQUOTE (c :: t) Eq).
    destruct (false || includes (c :: t) [COMMA]
              || includes (c :: t) [CR; LF]); reflexivity.
Qed.

(** ** Invariants of the token sequence *)

Lemma scanLoop_ends_with_EndOfFile (settings : ParseSettings) (n : nat) :
  forall input buffer,
    length input <= n ->
    exists toks,
      Lexer.scanLoop settings input buffer = toks ++ [EndOfFileD].
Proof.
  induction n as [|n IH]; intros input buffer Hlen.
  all: destruct input as [|c rest]; [eexists; reflexivity|].
  all: simpl in Hlen; try lia.
  assert (Hy : forall special rest0, length rest0 <= n ->
             exists toks,
               Lexer.yieldSpecial buffer special
                 (Lexer.scanLoop settings rest0 []) = toks ++ [EndOfFileD]).
  { intros special rest0 H0. destruct (IH rest0 [] H0) as [toks Ht].
    exists (Lexer.flush buffer ++ special :: toks).
    unfold Lexer.yieldSpecial. rewrite Ht, <- app_assoc. reflexivity. }
  cbn [Lexer.scanLoop].
  destruct (jseq [c] (FieldDelimiter settings)); [apply Hy; lia|].
  destruct (jseq [c] (QuotingCharacter settings)); [apply Hy; lia|].
  destruct (Lexer.isFirst settings c); [|apply IH; lia].
  destruct (Lexer.second settings) as [c2|]; [|apply Hy; lia].
  destruct rest as [|nxt rest']; [apply IH; simpl; lia|].
  simpl in Hlen.
  destruct (N.eqb nxt c2); [apply Hy; lia | apply IH; simpl; lia].
Qed.

Lemma jseq_false (a b : jsstring) : jseq a b = false -> a <> b.
Proof.
  intros H E. apply jseq_eq in E. rewrite E in H. discriminate.
Qed.

Lemma scanLoop_text_tokens (settings : ParseSettings) (n : nat) :
  forall input buffer,
    length input <= n ->
    (forall c, In c buffer -> ordinary settings c) ->
    forall t, In t (Lexer.scanLoop settings input buffer) ->
      Type_ t = Text ->
      exists v, Value t = Some v /\ v <> []
                /\ forall c, In c v -> ordinary settings c.
Proof.
  assert (Hflush : forall buffer t,
             (forall c, In c buffer -> ordinary settings c) ->
             In t (Lexer.flush buffer) ->
             exists v, Value t = Some v /\ v <> []
                       /\ forall c, In c v -> ordinary settings c).
  { intros [|b buffer] t Hb Ht; simpl in Ht; [contradiction|].
    destruct Ht as [<-|[]]. exists (b :: buffer). simpl.
    split; [reflexivity|]. split; [discriminate | exact Hb]. }
  induction n as [|n IH]; intros input buffer Hlen Hb t Hin Htext.
  all: destruct input as [|c rest];
    [ simpl in Hin; apply in_app_or in Hin; destruct Hin as [Hin|[<-|[]]];
      [apply Hflush with buffer; assumption | discriminate] |].
  all: simpl in Hlen; try lia.
  assert (Hy : forall special rest0,
             length rest0 <= n -> Type_ special <> Text ->
             In t (Lexer.yieldSpecial buffer special
                     (Lexer.scanLoop settings rest0 [])) ->
             exists v, Value t = Some v /\ v <> []
                       /\ forall c, In c v -> ordinary settings c).
  { intros special rest0 H0 Hs H1. unfold Lexer.yieldSpecial in H1.
    apply in_app_or in H1. destruct H1 as [H1|[<-|H1]].
    - apply Hflush with buffer; assumption.
    - contradiction.
    - apply (IH rest0 []); auto. intros ? []. }
  cbn [Lexer.scanLoop] in Hin.
  destruct (jseq [c] (FieldDelimiter settings)) eqn:Ef;
    [apply Hy in Hin; [exact Hin | lia | discriminate]|].
  destruct (jseq [c] (QuotingCharacter settings)) eqn:Eq;
    [apply Hy in Hin; [exact Hin | lia | discriminate]|].
  assert (Hb' : forall x, In x (buffer ++ [c]) -> ordinary settings x).
  { intros x Hx. apply in_app_or in Hx. destruct Hx as [Hx|[<-|[]]].
    - apply Hb, Hx.
    - split; apply jseq_false; assumption. }
  destruct (Lexer.isFirst settings c);
    [|apply (IH rest (buffer ++ [c])); auto; lia].
  destruct (Lexer.second settings) as [c2|];
    [|apply Hy in Hin; [exact Hin | lia | discriminate]].
  destruct rest as [|nxt rest'];
    [apply (IH [] (buffer ++ [c])); auto; simpl; lia|].
  simpl in Hlen.
  destruct (N.eqb nxt c2).
  - apply Hy in Hin; [exact Hin | lia | discriminate].
  - apply (IH (nxt :: rest') (buffer ++ [c])); auto; simpl; lia.
Qed.

(** ** The Writer's wrapping when the quote character is a literal pattern *)

Lemma WrapValueForCsv_literal_quote (settings : ParseSettings) (q : code)
    (value : jsstring) :
  QuotingMode_ settings = Minimal ->
  QuotingCharacter settings = [q] ->
  RegExp.compile [q] = Ok (RegExp.Literal q) ->
  In q value ->
  Writer.WrapValueForCsv (Some value) settings
  = Ok (Some ([q] ++ doubled q value ++ [q])).
Proof.
  intros Hm Hq Hc Hin.
  unfold Writer.WrapValueForCsv, Writer.WrapValueForCsvUsingMinimalMode.
  rewrite Hm, Hq.
  destruct value as [|c value]; [contradiction|].
  assert (E : includes (c :: value) [q] = true).
  { destruct (includes (c :: value) [q]) eqn:E; [reflexivity|].
    apply includes_single in E. contradiction. }
  rewrite E. cbn [orb].
  unfold RegExp.replace. rewrite Hc. cbn [bind RegExp.replaceAll].
  assert (Hs : RegExp.substitution [q; q] = [q; q]).
  { cbn [RegExp.substitution].
    destruct (N.eqb q RegExp.DOLLAR) eqn:Ed; [|reflexivity].
    apply N.eqb_eq in Ed. subst q. discriminate. }
  change ([q] ++ [q]) with [q; q]. rewrite Hs. reflexivity.
Qed.

(** ** The claims *)

(** C1 (amended).  Under the default settings (Minimal mode), for every
    text [t], [WrapValueForCsv] succeeds and [ParseSingleRow] of the wrapped
    text returns the one-field row [[t]] when [t] is not empty, whatever
    quote characters, delimiters and row delimiters [t] holds; for the
    empty text it returns the empty row. *)
Theorem C1_escaping_round_trip (t : jsstring) :
  exists wrapped,
    Writer.WrapValueForCsv (Some t) defaultSettings = Ok (Some wrapped)
    /\ Parser.ParseSingleRow wrapped (Some defaultSettings)
       = Ok match t with
            | [] => []
            | _ => [Some t]
            end.
Proof.
  destruct t as [|c t]; [exists []; split; reflexivity|].
  remember (c :: t) as s eqn:Es.
  assert (Hne : s <> []) by (subst; discriminate).
  eexists. split; [apply WrapValueForCsv_default; exact Hne|].
  replace (match s with [] => [] | _ => [Some s] end) with [Some s]
    by (subst; reflexivity).
  apply ParseSingleRow_one_field.
  destruct (includes s [DQUOTE] || includes s [COMMA]
            || includes s [CR; LF]) eqn:E.
  - (* wrapped in quotes: the opening quote, then the body *)
    rewrite scanD_quote. cbn [Lexer.flush app Parser.fieldLoop].
    change (Parser.fieldStep QuoteD (Parser.mkFieldState [] false false))
      with (Parser.Continue (Parser.mkFieldState [] true true)).
    cbv iota.
    rewrite (quoted_body (length s) s [] []); auto.
  - (* left as it is: one Text token *)
    apply orb_false_iff in E. destruct E as [E Hr].
    apply orb_false_iff in E. destruct E as [Hq Hc].
    apply includes_single in Hq, Hc.
    rewrite scanD_unquoted by assumption.
    apply fieldLoop_unquoted. exact Hne.
Qed.

(** C1, as stated, fails at the empty text: it is wrapped to the empty
    text, which parses to the empty row and not to a row of one empty
    field. *)
Lemma C1_empty_text_counterexample : ~ roundTrips defaultSettings [].
Proof.
  intros [wrapped [Hw Hp]].
  vm_compute in Hw. inversion Hw; subst wrapped.
  vm_compute in Hp. discriminate.
Qed.

(** C2 (amended).  When a Quote token is read outside quote mode and no
    quote has been seen yet in the field, quote mode is entered and the
    quote character is NOT appended, whatever unquoted content the field
    already holds; the quote character is appended only when a quote has
    already been seen in the field.  With the default settings the single
    row made of a, a quote, b and a quote parses to the one field ab. *)
Theorem C2_quote_after_bare_text :
  (forall (v : option jsstring) (nv : list jsstring),
      Parser.fieldStep (mkToken Quote v) (Parser.mkFieldState nv false false)
      = Parser.Continue (Parser.mkFieldState nv true true)
      /\ Parser.fieldStep (mkToken Quote v)
           (Parser.mkFieldState nv true false)
         = Parser.Continue
             (Parser.mkFieldState
                (nv ++ [Parser.valueOrEmpty (mkToken Quote v)]) true true))
  /\ Parser.ParseSingleRow text_a_quote_b_quote (Some defaultSettings)
     = Ok [Some (js "ab")].
Proof. split; [intros v nv; split; reflexivity | reflexivity]. Qed.

(** C2, as stated, fails: the row made of a, a quote, b and a quote does
    not parse to the field made of a, a quote and b. *)
Lemma C2_quote_not_kept_counterexample :
  Parser.ParseSingleRow text_a_quote_b_quote (Some defaultSettings)
  <> Ok [Some text_a_quote_b].
Proof. vm_compute. discriminate. Qed.

(** C3 (evaluation at the failing input).  The Lexer ends every token
    sequence with EndOfFile, and yet parsing the text made of one quote
    character raises the error about a token sequence without EndOfFile:
    in quote mode the EndOfFile token is taken as content and the next
    pull finds the generator exhausted. *)
Theorem C3_unterminated_quote_raises :
  (forall settings input, exists toks,
      Lexer.scanLoop settings input [] = toks ++ [EndOfFileD])
  /\ Lexer.scan defaultSettings [DQUOTE] = Yields [QuoteD; EndOfFileD]
  /\ Parser.Parse [DQUOTE] (Some defaultSettings)
     = Throw UnexpectedEndOfLexerOutput.
Proof.
  split; [|split; reflexivity].
  intros settings input.
  apply (scanLoop_ends_with_EndOfFile settings (length input)). lia.
Qed.

(** C4 (amended).  Under QuoteAll mode with otherwise default settings,
    [WriteLine] of the two values a,b and the empty string hands the sink
    exactly: quote a comma b quote, field delimiter, quote quote, CR LF.
    Parsing that text yields the single row whose first field is a,b and
    whose second field is absent ([null]), since a field with no content
    between its quotes has accumulated nothing. *)
Theorem C4_quote_all_line :
  written quoteAllSettings [js "a,b"; []] = Ok text_quoteAll_line
  /\ writeThenParse quoteAllSettings [js "a,b"; []]
     = Ok [Some [Some (js "a,b"); None]].
Proof. split; reflexivity. Qed.

(** C4, as stated, fails: the second field does not come back as the
    empty string. *)
Lemma C4_empty_field_counterexample :
  writeThenParse quoteAllSettings [js "a,b"; []]
  <> Ok [Some [Some (js "a,b"); Some []]].
Proof. vm_compute. discriminate. Qed.

(** C5.  With the default settings the input a,b CR LF parses to exactly
    one row, of the fields a and b.  After that row has been read the
    parser still has more rows; the next row read consists of one absent
    field, observed as the input is exhausted, and [ReadNextRow] returns
    [null] for it. *)
Theorem C5_trailing_row_suppressed :
  Parser.Parse text_ab_crlf (Some defaultSettings)
  = Ok [Some [Some (js "a"); Some (js "b")]]
  /\ exists p1 p2,
       Parser.ReadNextRow (Parser.new_Parser text_ab_crlf None)
       = Ok (Some [Some (js "a"); Some (js "b")], p1)
       /\ Parser.HasMoreRows p1 = true
       /\ Parser.ReadNextCsvValues p1 = Ok ([None], p2)
       /\ Parser.HasMoreRows p2 = false
       /\ Parser.ReadNextRow p1 = Ok (None, p2).
Proof.
  split; [reflexivity|].
  eexists _, _. split; [reflexivity|].
  split; [reflexivity|]. split; [reflexivity|]. split; reflexivity.
Qed.

(** C6.  Parsing the empty string with the default settings yields no
    row. *)
Theorem C6_empty_input_no_rows :
  Parser.Parse [] (Some defaultSettings) = Ok []
  /\ Parser.Parse [] None = Ok []
  /\ exists p, Parser.ReadToEnd (Parser.new_Parser [] None) = Ok ([], p).
Proof. split; [|split]; [reflexivity | reflexivity | eexists; reflexivity]. Qed.

(** C7.  With the default settings (row delimiter CR LF), a CR that is not
    followed by LF is not special: the Lexer appends it to its buffer and
    goes on; no error is raised.  The input a CR b , c parses to one row
    whose fields are a CR b and c. *)
Theorem C7_lone_first_delimiter_character (rest buffer : jsstring)
    (H : startsWith rest [LF] = false) :
  Lexer.scanLoop defaultSettings (CR :: rest) buffer
  = Lexer.scanLoop defaultSettings rest (buffer ++ [CR])
  /\ Parser.Parse text_a_cr_b_c (Some defaultSettings)
     = Ok [Some [Some text_a_cr_b; Some (js "c")]].
Proof. split; [apply scanD_lone_cr; exact H | reflexivity]. Qed.

(** C7 at the buffer a, before the characters b , c. *)
Lemma C7_lone_first_delimiter_character_witness :
  startsWith (js "b,c") [LF] = false
  /\ Lexer.scanLoop defaultSettings (CR :: js "b,c") (js "a")
     = Lexer.scanLoop defaultSettings (js "b,c") (js "a" ++ [CR]).
Proof.
  split; [reflexivity|].
  exact (proj1 (C7_lone_first_delimiter_character (js "b,c") (js "a")
                  eq_refl)).
Defined.

(** C8 (evaluation at the failing input).  With the quote character a full
    stop, which [new RegExp] reads as the pattern matching any character,
    the value a.b is wrapped with every one of its characters replaced by
    two full stops, and not with only its full stop doubled. *)
Theorem C8_pattern_quote_character :
  Writer.WrapValueForCsv (Some (js "a.b")) (settingsWithQuote RegExp.DOT)
  = Ok (Some (js "........"))
  /\ js "........" <> [RegExp.DOT] ++ doubled RegExp.DOT (js "a.b")
                      ++ [RegExp.DOT]
  /\ Writer.WrapValueForCsv (Some (js "a*b")) (settingsWithQuote RegExp.STAR)
     = Throw RegExpSyntaxError.
Proof. split; [reflexivity|]. split; [discriminate | reflexivity]. Qed.

(** C9.  On a freshly constructed Parser [HasMoreRows] is true, for every
    input text and every settings; on the empty input the next
    [ReadNextRow] nevertheless returns [null]. *)
Theorem C9_fresh_parser_has_more_rows :
  (forall csv settings,
      Parser.HasMoreRows (Parser.new_Parser csv settings) = true)
  /\ exists p,
       Parser.ReadNextRow (Parser.new_Parser [] None) = Ok (None, p)
       /\ Parser.HasMoreRows p = false.
Proof.
  split; [reflexivity|]. eexists. split; reflexivity.
Qed.

(** * Further properties *)

(** ** The Lexer *)

Lemma textOf_app (a b : list Token) : textOf (a ++ b) = textOf a ++ textOf b.
Proof. unfold textOf. now rewrite map_app, concat_app. Qed.

Lemma textOf_flush (buffer : jsstring) : textOf (Lexer.flush buffer) = buffer.
Proof.
  destruct buffer as [|c b]; [reflexivity|].
  unfold textOf. simpl. now rewrite app_nil_r.
Qed.

Lemma textOf_yieldSpecial (buffer : jsstring) (special : Token)
    (rest : list Token) :
  textOf (Lexer.yieldSpecial buffer special rest)
  = buffer ++ Parser.valueOrEmpty special ++ textOf rest.
Proof.
  unfold Lexer.yieldSpecial. rewrite textOf_app, textOf_flush. reflexivity.
Qed.

(** What [second] says about a row delimiter whose first character is
    [c]. *)
Lemma second_None (settings : ParseSettings) (c : code) :
  Lexer.isFirst settings c = true ->
  Lexer.second settings = None ->
  RowDelimiter settings = [c].
Proof.
  unfold Lexer.isFirst, Lexer.second.
  destruct (RowDelimiter settings) as [|f [|s l]]; simpl;
    try discriminate.
  intros H _. apply N.eqb_eq in H. now subst.
Qed.

Lemma second_Some (settings : ParseSettings) (c c2 : code) :
  Lexer.validateSettings settings = None ->
  Lexer.isFirst settings c = true ->
  Lexer.second settings = Some c2 ->
  RowDelimiter settings = [c; c2].
Proof.
  unfold Lexer.validateSettings, Lexer.isFirst, Lexer.second.
  destruct (RowDelimiter settings) as [|f [|s [|x l]]]; simpl;
    try discriminate.
  intros _ H E. apply N.eqb_eq in H. inversion E. now subst.
Qed.

Lemma scanLoop_textOf (settings : ParseSettings) (n : nat) :
  Lexer.validateSettings settings = None ->
  forall input buffer,
    length input <= n ->
    textOf (Lexer.scanLoop settings input buffer) = buffer ++ input.
Proof.
  intros Hv. induction n as [|n IH]; intros input buffer Hlen.
  all: destruct input as [|c rest];
    [ cbn [Lexer.scanLoop]; rewrite textOf_app, textOf_flush; reflexivity |].
  all: simpl in Hlen; try lia.
  cbn [Lexer.scanLoop].
  destruct (jseq [c] (FieldDelimiter settings)) eqn:Ef.
  { apply jseq_eq in Ef. rewrite textOf_yieldSpecial, IH by lia.
    unfold Lexer.FieldDelimiterToken, Parser.valueOrEmpty. simpl.
    now rewrite <- Ef. }
  destruct (jseq [c] (QuotingCharacter settings)) eqn:Eq.
  { apply jseq_eq in Eq. rewrite textOf_yieldSpecial, IH by lia.
    unfold Lexer.QuoteToken, Parser.valueOrEmpty. simpl.
    now rewrite <- Eq. }
  assert (Hfold : textOf (Lexer.scanLoop settings rest (buffer ++ [c]))
                  = buffer ++ c :: rest).
  { rewrite IH by lia. now rewrite <- app_assoc. }
  destruct (Lexer.isFirst settings c) eqn:E1; [|exact Hfold].
  destruct (Lexer.second settings) as [c2|] eqn:E2.
  - destruct rest as [|nxt rest']; [exact Hfold|].
    destruct (N.eqb nxt c2) eqn:En; [|exact Hfold].
    apply N.eqb_eq in En. subst nxt. simpl in Hlen.
    rewrite textOf_yieldSpecial, IH by lia.
    unfold Lexer.LineSeparatorToken, Parser.valueOrEmpty. simpl.
    now rewrite (second_Some settings c c2 Hv E1 E2).
  - rewrite textOf_yieldSpecial, IH by lia.
    unfold Lexer.LineSeparatorToken, Parser.valueOrEmpty. simpl.
    now rewrite (second_None settings c E1 E2).
Qed.

(** X1.  The Lexer loses nothing: whenever scanning succeeds, the values
    of the tokens, put end to end, are the input. *)
Theorem Lexer_scan_lossless (settings : ParseSettings) (input : jsstring)
    (toks : list Token)
    (H : Lexer.scan settings input = Yields toks) :
  textOf toks = input.
Proof.
  unfold Lexer.scan, Lexer.scanReader in H.
  destruct (Lexer.validateSettings settings) eqn:Hv; [discriminate|].
  inversion H; subst toks.
  apply (scanLoop_textOf settings (length input) Hv input []). lia.
Qed.

Lemma Lexer_scan_lossless_witness :
  Lexer.scan defaultSettings text_quoteAll_line
  = Yields [QuoteD; mkToken Text (Some (js "a")); DelimiterD;
            mkToken Text (Some (js "b")); QuoteD; DelimiterD; QuoteD;
            QuoteD; LineSeparatorD; EndOfFileD]
  /\ textOf [QuoteD; mkToken Text (Some (js "a")); DelimiterD;
             mkToken Text (Some (js "b")); QuoteD; DelimiterD; QuoteD;
             QuoteD; LineSeparatorD; EndOfFileD]
     = text_quoteAll_line.
Proof.
  split; [reflexivity|].
  exact (Lexer_scan_lossless defaultSettings text_quoteAll_line _ eq_refl).
Defined.

Lemma bodyToken_flush (buffer : jsstring) :
  Forall bodyToken (Lexer.flush buffer).
Proof.
  destruct buffer as [|c b]; simpl; constructor; [|constructor].
  repeat split; try discriminate. exists (c :: b). split; [reflexivity|].
  discriminate.
Qed.

Lemma jseq_single_nonempty (c : code) (s : jsstring) :
  jseq [c] s = true -> s <> [].
Proof. intros H. apply jseq_eq in H. subst. discriminate. Qed.

Lemma scanLoop_shape (settings : ParseSettings) (n : nat) :
  forall input buffer,
    length input <= n ->
    exists body,
      Lexer.scanLoop settings input buffer = body ++ [EndOfFileD]
      /\ Forall bodyToken body.
Proof.
  induction n as [|n IH]; intros input buffer Hlen.
  all: destruct input as [|c rest];
    [ exists (Lexer.flush buffer); split;
      [reflexivity | apply bodyToken_flush] |].
  all: simpl in Hlen; try lia.
  assert (Hy : forall special rest0,
             length rest0 <= n -> bodyToken special ->
             exists body,
               Lexer.yieldSpecial buffer special
                 (Lexer.scanLoop settings rest0 []) = body ++ [EndOfFileD]
               /\ Forall bodyToken body).
  { intros special rest0 H0 Hs.
    destruct (IH rest0 [] H0) as (body & Hb & Hf).
    exists (Lexer.flush buffer ++ special :: body). split.
    - unfold Lexer.yieldSpecial. rewrite Hb, <- app_assoc. reflexivity.
    - apply Forall_app. split; [apply bodyToken_flush|].
      constructor; assumption. }
  cbn [Lexer.scanLoop].
  destruct (jseq [c] (FieldDelimiter settings)) eqn:Ef.
  { apply Hy; [lia|]. repeat split; try discriminate.
    eexists. split; [reflexivity|].
    apply jseq_single_nonempty with c. exact Ef. }
  destruct (jseq [c] (QuotingCharacter settings)) eqn:Eq.
  { apply Hy; [lia|]. repeat split; try discriminate.
    eexists. split; [reflexivity|].
    apply jseq_single_nonempty with c. exact Eq. }
  destruct (Lexer.isFirst settings c) eqn:E1; [|apply IH; lia].
  assert (Hls : bodyToken (Lexer.LineSeparatorToken settings)).
  { repeat split; try discriminate. eexists. split; [reflexivity|].
    unfold Lexer.isFirst in E1.
    destruct (RowDelimiter settings); discriminate. }
  destruct (Lexer.second settings) as [c2|]; [|apply Hy; [lia | exact Hls]].
  destruct rest as [|nxt rest']; [apply IH; simpl; lia|].
  simpl in Hlen.
  destruct (N.eqb nxt c2);
    [apply Hy; [lia | exact Hls] | apply IH; simpl; lia].
Qed.

(** X2.  Whenever scanning succeeds, the token sequence is a body followed
    by one EndOfFile token; every token of the body is a Text, Delimiter,
    Quote or LineSeparator token (never NotSet, never EndOfFile) and
    carries a value that is not empty. *)
Theorem Lexer_scan_shape (settings : ParseSettings) (input : jsstring)
    (toks : list Token)
    (H : Lexer.scan settings input = Yields toks) :
  exists body, toks = body ++ [EndOfFileD] /\ Forall bodyToken body.
Proof.
  unfold Lexer.scan, Lexer.scanReader in H.
  destruct (Lexer.validateSettings settings); [discriminate|].
  inversion H; subst toks.
  apply (scanLoop_shape settings (length input) input []). lia.
Qed.

Lemma Lexer_scan_shape_witness :
  exists body,
    [mkToken Text (Some (js "ab")); DelimiterD;
     mkToken Text (Some (js "c")); EndOfFileD] = body ++ [EndOfFileD]
    /\ Forall bodyToken body.
Proof.
  exact (Lexer_scan_shape defaultSettings (js "ab,c") _ eq_refl).
Defined.

Lemma adjacentText_cons (a b : Token) (l : list Token) :
  adjacentText (a :: b :: l)
  = (isText a && isText b) || adjacentText (b :: l).
Proof. reflexivity. Qed.

Lemma adjacentText_flush (buffer : jsstring) (tail : list Token) :
  startsSpecial tail -> adjacentText tail = false ->
  adjacentText (Lexer.flush buffer ++ tail) = false.
Proof.
  intros Hs Ha. destruct buffer as [|c b]; [exact Ha|].
  destruct tail as [|t tail]; [contradiction|].
  simpl in Hs. cbn [Lexer.flush app].
  rewrite adjacentText_cons, Hs, andb_false_r. exact Ha.
Qed.

Lemma scanLoop_runs (settings : ParseSettings) (n : nat) :
  forall input buffer,
    length input <= n ->
    exists buffer' tail,
      Lexer.scanLoop settings input buffer = Lexer.flush buffer' ++ tail
      /\ startsSpecial tail /\ adjacentText tail = false.
Proof.
  induction n as [|n IH]; intros input buffer Hlen.
  all: destruct input as [|c rest];
    [ exists buffer, [EndOfFileD]; repeat split; reflexivity |].
  all: simpl in Hlen; try lia.
  assert (Hy : forall special rest0,
             length rest0 <= n -> isText special = false ->
             exists buffer' tail,
               Lexer.yieldSpecial buffer special
                 (Lexer.scanLoop settings rest0 [])
               = Lexer.flush buffer' ++ tail
               /\ startsSpecial tail /\ adjacentText tail = false).
  { intros special rest0 H0 Hs.
    destruct (IH rest0 [] H0) as (b & tail & Hb & Ht & Ha).
    exists buffer, (special :: Lexer.flush b ++ tail).
    split; [unfold Lexer.yieldSpecial; now rewrite Hb|].
    split; [exact Hs|].
    pose proof (adjacentText_flush b tail Ht Ha) as Hf.
    destruct (Lexer.flush b ++ tail) as [|t2 l]; [reflexivity|].
    rewrite adjacentText_cons, Hs. exact Hf. }
  cbn [Lexer.scanLoop].
  destruct (jseq [c] (FieldDelimiter settings)); [apply Hy; [lia|reflexivity]|].
  destruct (jseq [c] (QuotingCharacter settings));
    [apply Hy; [lia|reflexivity]|].
  destruct (Lexer.isFirst settings c); [|apply IH; lia].
  destruct (Lexer.second settings) as [c2|]; [|apply Hy; [lia|reflexivity]].
  destruct rest as [|nxt rest']; [apply IH; simpl; lia|].
  simpl in Hlen.
  destruct (N.eqb nxt c2);
    [apply Hy; [lia|reflexivity] | apply IH; simpl; lia].
Qed.

(** X3.  A Text token carries a whole run of ordinary characters: whenever
    scanning succeeds, no two Text tokens follow each other in the token
    sequence. *)
Theorem Lexer_scan_no_adjacent_Text (settings : ParseSettings)
    (input : jsstring) (toks : list Token)
    (H : Lexer.scan settings input = Yields toks) :
  adjacentText toks = false.
Proof.
  unfold Lexer.scan, Lexer.scanReader in H.
  destruct (Lexer.validateSettings settings); [discriminate|].
  inversion H; subst toks.
  destruct (scanLoop_runs settings (length input) input [])
    as (b & tail & Hb & Ht & Ha); [simpl; lia|].
  unfold unread. simpl. rewrite Hb. apply adjacentText_flush; assumption.
Qed.

Lemma Lexer_scan_no_adjacent_Text_witness :
  adjacentText [mkToken Text (Some text_a_cr_b); DelimiterD;
                mkToken Text (Some (js "c")); EndOfFileD] = false.
Proof.
  exact (Lexer_scan_no_adjacent_Text defaultSettings text_a_cr_b_c _ eq_refl).
Defined.

Lemma scanLoop_sameDelimiters (s1 s2 : ParseSettings) (n : nat) :
  sameDelimiters s1 s2 ->
  forall input buffer,
    length input <= n ->
    Lexer.scanLoop s1 input buffer = Lexer.scanLoop s2 input buffer.
Proof.
  intros (Hf & Hr & Hq).
  assert (E1 : forall c, Lexer.isFirst s1 c = Lexer.isFirst s2 c)
    by (intros c; unfold Lexer.isFirst; now rewrite Hr).
  assert (E2 : Lexer.second s1 = Lexer.second s2)
    by (unfold Lexer.second; now rewrite Hr).
  assert (E3 : Lexer.FieldDelimiterToken s1 = Lexer.FieldDelimiterToken s2)
    by (unfold Lexer.FieldDelimiterToken; now rewrite Hf).
  assert (E4 : Lexer.QuoteToken s1 = Lexer.QuoteToken s2)
    by (unfold Lexer.QuoteToken; now rewrite Hq).
  assert (E5 : Lexer.LineSeparatorToken s1 = Lexer.LineSeparatorToken s2)
    by (unfold Lexer.LineSeparatorToken; now rewrite Hr).
  induction n as [|n IH]; intros input buffer Hlen.
  all: destruct input as [|c rest]; [reflexivity|].
  all: simpl in Hlen; try lia.
  cbn [Lexer.scanLoop].
  rewrite Hf, Hq, E1, E2, E3, E4, E5, !(IH rest) by lia.
  destruct rest as [|nxt rest']; [reflexivity|].
  simpl in Hlen. rewrite (IH rest') by lia. reflexivity.
Qed.

Lemma new_Parser_sameDelimiters (s1 s2 : ParseSettings) (csv : jsstring) :
  sameDelimiters s1 s2 ->
  Parser.new_Parser csv (Some s1) = Parser.new_Parser csv (Some s2).
Proof.
  intros H.
  unfold Parser.new_Parser, Parser.initialize, Lexer.scanReader. simpl.
  assert (Ev : Lexer.validateSettings s1 = Lexer.validateSettings s2).
  { destruct H as (_ & Hr & _). unfold Lexer.validateSettings.
    now rewrite Hr. }
  rewrite Ev.
  rewrite (scanLoop_sameDelimiters s1 s2 (length csv) H); [reflexivity|].
  unfold unread. simpl. lia.
Qed.

(** X4.  The quoting mode plays no part in reading: two settings with the
    same field delimiter, row delimiter and quote character give the same
    outcome of [Parse] and of [ParseSingleRow] on every text. *)
Theorem Parse_ignores_quoting_mode (s1 s2 : ParseSettings) (csv : jsstring)
    (H : sameDelimiters s1 s2) :
  Parser.Parse csv (Some s1) = Parser.Parse csv (Some s2)
  /\ Parser.ParseSingleRow csv (Some s1) = Parser.ParseSingleRow csv (Some s2).
Proof.
  unfold Parser.Parse, Parser.ParseSingleRow.
  rewrite (new_Parser_sameDelimiters s1 s2 csv H). split; reflexivity.
Qed.

Lemma Parse_ignores_quoting_mode_witness :
  sameDelimiters quoteAllSettings defaultSettings
  /\ Parser.Parse text_quoteAll_line (Some quoteAllSettings)
     = Parser.Parse text_quoteAll_line (Some defaultSettings).
Proof.
  split; [repeat split|].
  exact (proj1 (Parse_ignores_quoting_mode quoteAllSettings defaultSettings
                  text_quoteAll_line
                  (conj eq_refl (conj eq_refl eq_refl)))).
Defined.

(** ** The Parser: what holds of one field holds of rows and of all rows *)

Section ParserLoops.

Variable I : Parser.Parser -> Prop.      (* what is known of the parser *)
Variable E : Error -> Prop.              (* the errors that may be thrown *)
Variable V : Field -> Prop.              (* what is known of a field read *)

Hypothesis ReadNextCsvValue_post : forall p,
  I p ->
  match Parser.ReadNextCsvValue p with
  | Ok (v, p1) => I p1 /\ V v
  | Throw e => E e
  | _ => True
  end.

Lemma ReadNextCsvValues_fuel_post (fuel : nat) : forall p,
  I p ->
  match Parser.ReadNextCsvValues_fuel fuel p with
  | Ok (row, p1) => I p1 /\ row <> [] /\ Forall V row
  | Throw e => E e
  | _ => True
  end.
Proof.
  induction fuel as [|fuel IH]; intros p Hp; [exact Logic.I|].
  cbn [Parser.ReadNextCsvValues_fuel].
  pose proof (ReadNextCsvValue_post p Hp) as H1.
  destruct (Parser.ReadNextCsvValue p) as [[v p1]|e| |]; cbn [bind];
    try exact H1.
  destruct H1 as [Hp1 Hv].
  destruct (TokenType_eqb (Parser.CurrentTokenType p1) Delimiter).
  - pose proof (IH p1 Hp1) as H2.
    destruct (Parser.ReadNextCsvValues_fuel fuel p1) as [[row p2]|e| |];
      cbn [bind]; try exact H2.
    destruct H2 as (Hp2 & _ & Hrow).
    split; [exact Hp2|]. split; [discriminate|]. constructor; assumption.
  - split; [exact Hp1|]. split; [discriminate|]. constructor; auto.
Qed.

Lemma ReadNextRow_post (p : Parser.Parser) :
  I p ->
  match Parser.ReadNextRow p with
  | Ok (Some row, p1) => I p1 /\ row <> [] /\ Forall V row
  | Ok (None, p1) => I p1 /\ Parser.HasMoreRows p1 = false
  | Throw e => E e
  | _ => True
  end.
Proof.
  intros Hp. unfold Parser.ReadNextRow, Parser.ReadNextCsvValues.
  destruct (Parser.HasMoreRows p) eqn:Hm; cbn [negb]; [|auto].
  pose proof (ReadNextCsvValues_fuel_post (S (Parser.pending p)) p Hp) as H1.
  destruct (Parser.ReadNextCsvValues_fuel (S (Parser.pending p)) p)
    as [[row p1]|e| |]; cbn [bind]; try exact H1.
  destruct H1 as (Hp1 & Hne & Hrow).
  destruct (Parser.HasMoreRows p1) eqn:Hm1; cbn [negb andb]; [auto|].
  destruct (Parser.isSingleNull row); auto.
Qed.

Lemma ReadToEnd_fuel_post (fuel : nat) : forall p rows,
  I p -> Forall (rowOf V) rows ->
  match Parser.ReadToEnd_fuel fuel p rows with
  | Ok (rows', p1) =>
      I p1 /\ Forall (rowOf V) rows' /\ Parser.HasMoreRows p1 = false
  | Throw e => E e
  | _ => True
  end.
Proof.
  induction fuel as [|fuel IH]; intros p rows Hp Hrows; [exact Logic.I|].
  cbn [Parser.ReadToEnd_fuel].
  destruct (Parser.HasMoreRows p) eqn:Hm; [|auto].
  pose proof (ReadNextRow_post p Hp) as H1.
  destruct (Parser.ReadNextRow p) as [[[row|] p1]|e| |]; cbn [bind];
    try exact H1.
  - destruct H1 as (Hp1 & Hne & Hrow).
    cbn [Parser.isNull negb]. rewrite orb_true_r.
    apply IH; [exact Hp1|]. apply Forall_app. split; [exact Hrows|].
    constructor; [|constructor]. exists row. auto.
  - destruct H1 as (Hp1 & Hm1). rewrite Hm1. cbn [Parser.isNull negb orb].
    apply IH; assumption.
Qed.

End ParserLoops.

(** ** The Parser on the Lexer's output *)

Lemma lexed_body (body : list Token) :
  Forall bodyToken body -> lexed (body ++ [EndOfFileD]).
Proof.
  induction body as [|t body IH]; intros H; [reflexivity|].
  inversion H as [|? ? Ht Hb]; subst. specialize (IH Hb).
  cbn [app lexed].
  destruct (body ++ [EndOfFileD]) as [|t2 l] eqn:E.
  - destruct body; discriminate.
  - split; assumption.
Qed.

Lemma lexed_tail (t : Token) (rest : list Token) :
  lexed (t :: rest) -> lexed rest.
Proof.
  destruct rest as [|t2 l]; [intros _; exact Logic.I|].
  intros [_ H]. exact H.
Qed.

Lemma lexed_head (t : Token) (rest : list Token) :
  lexed (t :: rest) ->
  (rest = [] /\ t = EndOfFileD) \/ (rest <> [] /\ bodyToken t).
Proof.
  destruct rest as [|t2 l]; [left; auto|].
  intros [H _]. right. split; [discriminate | exact H].
Qed.

Lemma join_nonempty (nv : list jsstring) :
  nv <> [] -> Forall (fun s => s <> []) nv -> join nv <> [].
Proof.
  destruct nv as [|s nv]; [contradiction|]. intros _ H.
  inversion H as [|? ? Hs _]; subst. unfold join. simpl.
  destruct s; [contradiction | discriminate].
Qed.

Lemma bodyToken_value (t : Token) :
  bodyToken t -> Parser.valueOrEmpty t <> [].
Proof.
  intros (_ & _ & v & Hv & Hne). unfold Parser.valueOrEmpty.
  now rewrite Hv.
Qed.

Lemma fieldLoop_lexed (toks : list Token) :
  forall st,
    lexed toks ->
    Forall (fun s => s <> []) (Parser.nextValue st) ->
    match Parser.fieldLoop toks st with
    | Ok (v, p1) => readsLexed p1 /\ goodField v
    | Throw e => e = UnexpectedEndOfLexerOutput
    | _ => True
    end.
Proof.
  induction toks as [|cur rest IH]; intros st Hl Hnv; [reflexivity|].
  pose proof (lexed_tail _ _ Hl) as Hrest.
  assert (Hret : forall v, goodField v ->
             readsLexed (Parser.mkParser (Yields rest) (Some cur))
             /\ goodField v).
  { intros v Hv. split; [|exact Hv]. exists rest. split; [reflexivity|].
    exact Hrest. }
  assert (Hjoin : goodField match Parser.nextValue st with
                            | [] => None
                            | _ :: _ => Some (join (Parser.nextValue st))
                            end).
  { destruct (Parser.nextValue st) as [|s nv] eqn:En; [discriminate|].
    unfold goodField. intros H. inversion H as [Hj].
    revert Hj. apply join_nonempty; [discriminate | exact Hnv]. }
  cbn [Parser.fieldLoop].
  destruct (lexed_head _ _ Hl) as [[-> ->]|[Hne Hb]].
  - (* the EndOfFile token, last of the sequence *)
    unfold Parser.fieldStep. cbn [Type_ EndOfFileD].
    destruct (Parser.isQuoteModeOn st); [reflexivity|].
    destruct (Parser.nextValue st); apply Hret; [discriminate | exact Hjoin].
  - pose proof (bodyToken_value cur Hb) as Hval.
    assert (Hpush : Forall (fun s => s <> [])
                      (Parser.nextValue st ++ [Parser.valueOrEmpty cur])).
    { apply Forall_app. split; [exact Hnv|]. constructor; auto. }
    destruct Hb as (Hns & Heof & _).
    unfold Parser.fieldStep.
    destruct (Parser.isQuoteModeOn st).
    + destruct (TokenType_eqb (Type_ cur) Quote); apply IH; assumption.
    + destruct (Type_ cur); try contradiction.
      * apply IH; assumption.
      * destruct (Parser.nextValue st); apply Hret;
          [discriminate | exact Hjoin].
      * destruct (Parser.nextValue st); apply Hret;
          [discriminate | exact Hjoin].
      * destruct (Parser.isQuoted st); apply IH; assumption.
Qed.

Lemma ReadNextCsvValue_lexed (p : Parser.Parser) :
  readsLexed p ->
  match Parser.ReadNextCsvValue p with
  | Ok (v, p1) => readsLexed p1 /\ goodField v
  | Throw e => e = UnexpectedEndOfLexerOutput
  | _ => True
  end.
Proof.
  intros Hp. unfold Parser.ReadNextCsvValue.
  destruct (TokenType_eqb (Parser.CurrentTokenType p) EndOfFile).
  - split; [exact Hp | discriminate].
  - destruct Hp as (toks & Ht & Hl). rewrite Ht.
    apply fieldLoop_lexed; [exact Hl | constructor].
Qed.

Lemma new_Parser_lexed (csv : jsstring) (settings : option ParseSettings) :
  Lexer.validateSettings (Parser.orDefault settings) = None ->
  readsLexed (Parser.new_Parser csv settings).
Proof.
  intros Hv. unfold Parser.new_Parser, Parser.initialize, Lexer.scanReader.
  rewrite Hv. eexists. split; [reflexivity|].
  destruct (scanLoop_shape (Parser.orDefault settings) (length csv) csv [])
    as (body & Hb & Hf); [lia|].
  unfold unread. simpl. rewrite Hb. apply lexed_body. exact Hf.
Qed.

Lemma new_Parser_invalid (csv : jsstring) (settings : option ParseSettings)
    (e : Error) :
  Lexer.validateSettings (Parser.orDefault settings) = Some e ->
  Parser.ReadNextRow (Parser.new_Parser csv settings) = Throw e.
Proof.
  intros Hv.
  unfold Parser.ReadNextRow, Parser.ReadNextCsvValues, Parser.new_Parser,
    Parser.initialize, Lexer.scanReader.
  rewrite Hv. reflexivity.
Qed.

(** X5.  The fields and rows [Parse] returns: every element of the result
    is a row (never [null]), every row has at least one field, and no field
    is the empty string: a field is [null] or a string that is not
    empty. *)
Theorem Parse_rows_and_fields (csv : jsstring)
    (settings : option ParseSettings) (rows : list (option Row))
    (H : Parser.Parse csv settings = Ok rows) :
  Forall (rowOf goodField) rows.
Proof.
  unfold Parser.Parse, Parser.ReadToEnd in H.
  destruct (Lexer.validateSettings (Parser.orDefault settings)) as [e|] eqn:Hv.
  - (* invalid settings: the first read throws *)
    exfalso. cbn [Parser.ReadToEnd_fuel] in H.
    change (Parser.HasMoreRows (Parser.new_Parser csv settings)) with true
      in H.
    cbv iota in H. rewrite (new_Parser_invalid csv settings e Hv) in H.
    discriminate.
  - pose proof (ReadToEnd_fuel_post readsLexed
                  (fun e => e = UnexpectedEndOfLexerOutput) goodField
                  ReadNextCsvValue_lexed
                  (S (Parser.pending (Parser.new_Parser csv settings)))
                  (Parser.new_Parser csv settings) []
                  (new_Parser_lexed csv settings Hv) (Forall_nil _)) as P.
    destruct (Parser.ReadToEnd_fuel _ _ _) as [[rows' p1]|e| |];
      try discriminate.
    cbn [bind] in H. inversion H; subst rows'. apply P.
Qed.

Lemma Parse_rows_and_fields_witness :
  Forall (rowOf goodField) [Some [Some (js "a,b"); None]].
Proof.
  exact (Parse_rows_and_fields text_quoteAll_line (Some quoteAllSettings)
           _ eq_refl).
Defined.

Lemma validateSettings_cases (s : ParseSettings) :
  match Lexer.validateSettings s with
  | Some e =>
      (e = RowDelimiterNull /\ RowDelimiter s = [])
      \/ (e = RowDelimiterTooLong /\ 2 < length (RowDelimiter s))
  | None => RowDelimiter s <> [] /\ length (RowDelimiter s) <= 2
  end.
Proof.
  unfold Lexer.validateSettings.
  destruct (RowDelimiter s) as [|c l] eqn:E; [left; auto|].
  destruct (2 <? length (c :: l)) eqn:El.
  - right. apply Nat.ltb_lt in El. auto.
  - apply Nat.ltb_ge in El. split; [discriminate | exact El].
Qed.

(** X6.  The only errors [Parse] raises: the two configuration errors, each
    exactly under its condition on the row delimiter, and, under valid
    settings, the error about the end of the Lexer's output.  The
    unexpected-token error of the [default] branch is never raised. *)
Theorem Parse_throws_only (csv : jsstring) (settings : option ParseSettings)
    (e : Error) (H : Parser.Parse csv settings = Throw e) :
  (e = RowDelimiterNull /\ RowDelimiter (Parser.orDefault settings) = [])
  \/ (e = RowDelimiterTooLong
      /\ 2 < length (RowDelimiter (Parser.orDefault settings)))
  \/ (e = UnexpectedEndOfLexerOutput
      /\ RowDelimiter (Parser.orDefault settings) <> []
      /\ length (RowDelimiter (Parser.orDefault settings)) <= 2).
Proof.
  pose proof (validateSettings_cases (Parser.orDefault settings)) as Hc.
  unfold Parser.Parse, Parser.ReadToEnd in H.
  destruct (Lexer.validateSettings (Parser.orDefault settings)) as [e'|] eqn:Hv.
  - cbn [Parser.ReadToEnd_fuel] in H.
    change (Parser.HasMoreRows (Parser.new_Parser csv settings)) with true
      in H.
    cbv iota in H. rewrite (new_Parser_invalid csv settings e' Hv) in H.
    cbn [bind] in H. inversion H; subst e'.
    destruct Hc as [Hc|Hc]; [left | right; left]; exact Hc.
  - pose proof (ReadToEnd_fuel_post readsLexed
                  (fun e => e = UnexpectedEndOfLexerOutput) goodField
                  ReadNextCsvValue_lexed
                  (S (Parser.pending (Parser.new_Parser csv settings)))
                  (Parser.new_Parser csv settings) []
                  (new_Parser_lexed csv settings Hv) (Forall_nil _)) as P.
    destruct (Parser.ReadToEnd_fuel _ _ _) as [[rows' p1]|e'| |];
      try discriminate.
    cbn [bind] in H. injection H as <-.
    right; right. split; [exact P | exact Hc].
Qed.

Lemma Parse_throws_only_witness :
  (UnexpectedEndOfLexerOutput = RowDelimiterNull
   /\ RowDelimiter defaultSettings = [])
  \/ (UnexpectedEndOfLexerOutput = RowDelimiterTooLong
      /\ 2 < length (RowDelimiter defaultSettings))
  \/ (UnexpectedEndOfLexerOutput = UnexpectedEndOfLexerOutput
      /\ RowDelimiter defaultSettings <> []
      /\ length (RowDelimiter defaultSettings) <= 2).
Proof.
  exact (Parse_throws_only (js "a," ++ [DQUOTE] ++ js "b") None
           UnexpectedEndOfLexerOutput eq_refl).
Defined.

(** X7.  Invalid settings are reported at the first read, for every input
    text, the empty one included: constructing the Parser does not fail and
    it claims to have more rows, and [ReadNextRow], [ParseSingleRow] and
    [Parse] throw the configuration error: the one about a missing row
    delimiter when it is empty, the one about its length when it has more
    than two characters. *)
Theorem Parse_invalid_row_delimiter (csv : jsstring) (s : ParseSettings)
    (H : RowDelimiter s = [] \/ 2 < length (RowDelimiter s)) :
  let e := match RowDelimiter s with
           | [] => RowDelimiterNull
           | _ => RowDelimiterTooLong
           end in
  Parser.HasMoreRows (Parser.new_Parser csv (Some s)) = true
  /\ Parser.ReadNextRow (Parser.new_Parser csv (Some s)) = Throw e
  /\ Parser.ParseSingleRow csv (Some s) = Throw e
  /\ Parser.Parse csv (Some s) = Throw e.
Proof.
  intros e.
  assert (Hv : Lexer.validateSettings (Parser.orDefault (Some s)) = Some e).
  { unfold Lexer.validateSettings, e. simpl.
    destruct (RowDelimiter s) as [|c l]; [reflexivity|].
    destruct H as [H|H]; [discriminate|].
    apply Nat.ltb_lt in H. now rewrite H. }
  pose proof (new_Parser_invalid csv (Some s) e Hv) as Hr.
  split; [reflexivity|]. split; [exact Hr|].
  unfold Parser.ParseSingleRow, Parser.Parse, Parser.ReadToEnd.
  cbn [Parser.ReadToEnd_fuel].
  change (Parser.HasMoreRows (Parser.new_Parser csv (Some s))) with true.
  cbv iota. rewrite Hr. split; reflexivity.
Qed.

Lemma Parse_invalid_row_delimiter_witness :
  Parser.Parse [] (Some (mkSettings [COMMA] [] [DQUOTE] Minimal))
  = Throw RowDelimiterNull
  /\ Parser.Parse (js "a,b")
       (Some (mkSettings [COMMA] (js "abc") [DQUOTE] Minimal))
     = Throw RowDelimiterTooLong.
Proof.
  split.
  - exact (proj2 (proj2 (proj2
      (Parse_invalid_row_delimiter []
         (mkSettings [COMMA] [] [DQUOTE] Minimal) (or_introl eq_refl))))).
  - refine (proj2 (proj2 (proj2
      (Parse_invalid_row_delimiter (js "a,b")
         (mkSettings [COMMA] (js "abc") [DQUOTE] Minimal) (or_intror _))))).
    simpl. lia.
Defined.

(** ** Texts without quote characters *)

Lemma quoteFree_flush (buffer : jsstring) : quoteFree (Lexer.flush buffer).
Proof.
  destruct buffer; simpl; constructor; [discriminate | constructor].
Qed.

Lemma scanLoop_quoteFree (settings : ParseSettings) (n : nat) :
  forall input buffer,
    length input <= n ->
    (forall c, In c input -> [c] <> QuotingCharacter settings) ->
    quoteFree (Lexer.scanLoop settings input buffer).
Proof.
  induction n as [|n IH]; intros input buffer Hlen Hq.
  all: destruct input as [|c rest];
    [ apply Forall_app; split;
      [apply quoteFree_flush | constructor; [discriminate | constructor]] |].
  all: simpl in Hlen; try lia.
  assert (Hrest : forall c0, In c0 rest -> [c0] <> QuotingCharacter settings)
    by (intros c0 H0; apply Hq; right; exact H0).
  assert (Hy : forall special rest0,
             length rest0 <= n -> Type_ special <> Quote ->
             (forall c0, In c0 rest0 -> [c0] <> QuotingCharacter settings) ->
             quoteFree (Lexer.yieldSpecial buffer special
                          (Lexer.scanLoop settings rest0 []))).
  { intros special rest0 H0 Hs Hq0. unfold Lexer.yieldSpecial.
    apply Forall_app. split; [apply quoteFree_flush|].
    constructor; [exact Hs | apply IH; assumption]. }
  cbn [Lexer.scanLoop].
  destruct (jseq [c] (FieldDelimiter settings));
    [apply Hy; [lia | discriminate | exact Hrest]|].
  destruct (jseq [c] (QuotingCharacter settings)) eqn:Eq.
  { apply jseq_eq in Eq. exfalso. apply (Hq c); [left; reflexivity|exact Eq]. }
  destruct (Lexer.isFirst settings c); [|apply IH; [lia | exact Hrest]].
  destruct (Lexer.second settings) as [c2|];
    [|apply Hy; [lia | discriminate | exact Hrest]].
  destruct rest as [|nxt rest']; [apply IH; [simpl; lia | exact Hrest]|].
  simpl in Hlen.
  destruct (N.eqb nxt c2).
  - apply Hy; [lia | discriminate |].
    intros c0 H0. apply Hrest. right. exact H0.
  - apply IH; [simpl; lia | exact Hrest].
Qed.

Lemma fieldLoop_quoteFree (toks : list Token) :
  forall st,
    toks <> [] -> lexed toks -> quoteFree toks ->
    Parser.isQuoteModeOn st = false ->
    match Parser.fieldLoop toks st with
    | Ok (v, p1) => readsQuoteFree p1 /\ True
    | Throw e => False
    | _ => True
    end.
Proof.
  induction toks as [|cur rest IH]; intros st Hne Hl Hq Hm; [contradiction|].
  pose proof (lexed_tail _ _ Hl) as Hrest.
  inversion Hq as [|? ? Hcur Hqrest]; subst.
  cbn [Parser.fieldLoop]. unfold Parser.fieldStep. rewrite Hm.
  destruct (lexed_head _ _ Hl) as [[-> ->]|[Hne' Hb]].
  - cbn [Type_ EndOfFileD].
    assert (R : readsQuoteFree
                  (Parser.mkParser (Yields []) (Some EndOfFileD)) /\ True).
    { split; [|exact Logic.I]. exists []. repeat split; auto. }
    destruct (Parser.nextValue st); exact R.
  - assert (R : readsQuoteFree (Parser.mkParser (Yields rest) (Some cur))
                /\ True).
    { split; [|exact Logic.I]. exists rest.
      repeat split; auto. intros H0. contradiction. }
    destruct Hb as (Hns & Heof & _).
    destruct (Type_ cur); try contradiction.
    + apply IH; auto.
    + destruct (Parser.nextValue st); exact R.
    + destruct (Parser.nextValue st); exact R.
Qed.

Lemma ReadNextCsvValue_quoteFree (p : Parser.Parser) :
  readsQuoteFree p ->
  match Parser.ReadNextCsvValue p with
  | Ok (v, p1) => readsQuoteFree p1 /\ True
  | Throw e => False
  | _ => True
  end.
Proof.
  intros Hp. unfold Parser.ReadNextCsvValue.
  destruct (TokenType_eqb (Parser.CurrentTokenType p) EndOfFile) eqn:E.
  - split; [exact Hp | exact Logic.I].
  - destruct Hp as (toks & Ht & Hl & Hq & He). rewrite Ht.
    apply fieldLoop_quoteFree; auto.
    intros ->. rewrite (He eq_refl) in E. discriminate.
Qed.

(** X8.  A text without quote characters always parses: under valid
    settings (a row delimiter of one or two characters), when no character
    of the text is the quote character, [Parse] returns rows and raises no
    error. *)
Theorem Parse_quote_free_succeeds (csv : jsstring) (s : ParseSettings)
    (Hv : RowDelimiter s <> [] /\ length (RowDelimiter s) <= 2)
    (Hq : forall c, In c csv -> [c] <> QuotingCharacter s) :
  exists rows, Parser.Parse csv (Some s) = Ok rows.
Proof.
  assert (Hv' : Lexer.validateSettings s = None).
  { pose proof (validateSettings_cases s) as Hc.
    destruct (Lexer.validateSettings s); [|reflexivity].
    destruct Hv as [Hv1 Hv2]. destruct Hc as [[_ Hc]|[_ Hc]];
      [contradiction | lia]. }
  assert (Hp : readsQuoteFree (Parser.new_Parser csv (Some s))).
  { unfold Parser.new_Parser, Parser.initialize, Lexer.scanReader. simpl.
    rewrite Hv'. eexists. split; [reflexivity|].
    unfold unread. simpl.
    destruct (scanLoop_shape s (length csv) csv []) as (body & Hb & Hf);
      [lia|].
    split; [rewrite Hb; apply lexed_body; exact Hf|].
    split; [apply (scanLoop_quoteFree s (length csv)); auto|].
    rewrite Hb. intros H0. destruct body; discriminate. }
  destruct (Parse_total csv (Some s)) as [[e He]|Hok]; [|exact Hok].
  exfalso. unfold Parser.Parse, Parser.ReadToEnd in He.
  pose proof (ReadToEnd_fuel_post readsQuoteFree (fun _ => False)
                (fun _ => True) ReadNextCsvValue_quoteFree
                (S (Parser.pending (Parser.new_Parser csv (Some s))))
                (Parser.new_Parser csv (Some s)) [] Hp (Forall_nil _)) as P.
  destruct (Parser.ReadToEnd_fuel _ _ _) as [[rows' p1]|e'| |];
    try discriminate. exact P.
Qed.

Lemma Parse_quote_free_succeeds_witness :
  exists rows, Parser.Parse text_a_cr_b_c (Some defaultSettings) = Ok rows.
Proof.
  apply Parse_quote_free_succeeds.
  - split; [discriminate | simpl; lia].
  - intros c Hc. simpl in Hc.
    repeat (destruct Hc as [<-|Hc]; [discriminate|]). contradiction.
Defined.

(** ** How the Parser's operations compose *)

Lemma ReadToEnd_fuel_prefix (fuel : nat) :
  forall p acc res p',
    Parser.ReadToEnd_fuel fuel p acc = Ok (res, p') ->
    exists tail, res = acc ++ tail.
Proof.
  induction fuel as [|fuel IH]; intros p acc res p' H; [discriminate|].
  cbn [Parser.ReadToEnd_fuel] in H.
  destruct (Parser.HasMoreRows p).
  - destruct (Parser.ReadNextRow p) as [[next p1]|e| |]; try discriminate.
    cbn [bind] in H.
    destruct (Parser.HasMoreRows p1 || negb (Parser.isNull next)).
    + apply IH in H. destruct H as [tail ->].
      exists (next :: tail). now rewrite <- app_assoc.
    + apply IH in H. exact H.
  - inversion H; subst. exists []. now rewrite app_nil_r.
Qed.

(** X9.  [ParseSingleRow] returns the first row of [Parse]: whenever
    [Parse] returns rows, [ParseSingleRow] of the same text returns the
    first of them, and the empty row when there is none. *)
Theorem ParseSingleRow_first_of_Parse (csv : jsstring)
    (settings : option ParseSettings) (rows : list (option Row))
    (H : Parser.Parse csv settings = Ok rows) :
  Parser.ParseSingleRow csv settings
  = Ok match rows with
       | Some r :: _ => r
       | _ => []
       end.
Proof.
  unfold Parser.Parse, Parser.ReadToEnd in H. unfold Parser.ParseSingleRow.
  cbn [Parser.ReadToEnd_fuel] in H.
  change (Parser.HasMoreRows (Parser.new_Parser csv settings)) with true in H.
  cbv iota in H.
  destruct (Parser.ReadNextRow (Parser.new_Parser csv settings))
    as [[next p1]|e| |]; try discriminate.
  cbn [bind] in H |- *.
  destruct (Parser.HasMoreRows p1 || negb (Parser.isNull next)) eqn:C.
  - destruct (Parser.ReadToEnd_fuel _ p1 _) as [[res p2]|e| |] eqn:E;
      try discriminate.
    apply ReadToEnd_fuel_prefix in E. destruct E as [tail ->].
    cbn [bind] in H. inversion H; subst rows.
    destruct next; reflexivity.
  - apply orb_false_iff in C. destruct C as [Hm Hn].
    destruct next as [r|]; [discriminate|].
    destruct (Parser.pending (Parser.new_Parser csv settings)) as [|n];
      [discriminate|].
    cbn [Parser.ReadToEnd_fuel] in H. rewrite Hm in H.
    cbn [bind] in H. inversion H. reflexivity.
Qed.

Lemma ParseSingleRow_first_of_Parse_witness :
  Parser.ParseSingleRow (text_ab_crlf ++ js "c") None
  = Ok [Some (js "a"); Some (js "b")].
Proof.
  exact (ParseSingleRow_first_of_Parse (text_ab_crlf ++ js "c") None
           [Some [Some (js "a"); Some (js "b")]; Some [Some (js "c")]]
           eq_refl).
Defined.

Lemma ReadNextCsvValue_any (p : Parser.Parser) :
  True ->
  match Parser.ReadNextCsvValue p with
  | Ok (v, p1) => True /\ True
  | Throw e => True
  | _ => True
  end.
Proof.
  intros _. destruct (Parser.ReadNextCsvValue p) as [[v p1]|e| |]; auto.
Qed.

(** X10.  [ReadToEnd] leaves nothing to read: once it has returned, the
    parser has no more rows, [ReadNextRow] returns [null] and leaves the
    parser as it is, and a second [ReadToEnd] returns no row. *)
Theorem ReadToEnd_exhausts (p p1 : Parser.Parser) (rows : list (option Row))
    (H : Parser.ReadToEnd p = Ok (rows, p1)) :
  Parser.HasMoreRows p1 = false
  /\ Parser.ReadNextRow p1 = Ok (None, p1)
  /\ Parser.ReadToEnd p1 = Ok ([], p1).
Proof.
  assert (Hm : Parser.HasMoreRows p1 = false).
  { unfold Parser.ReadToEnd in H.
    pose proof (ReadToEnd_fuel_post (fun _ => True) (fun _ => True)
                  (fun _ => True) ReadNextCsvValue_any
                  (S (Parser.pending p)) p [] Logic.I (Forall_nil _)) as P.
    rewrite H in P. apply P. }
  split; [exact Hm|].
  unfold Parser.ReadNextRow, Parser.ReadToEnd. cbn [Parser.ReadToEnd_fuel].
  rewrite Hm. split; reflexivity.
Qed.

Lemma ReadToEnd_exhausts_witness :
  exists p1,
    Parser.ReadToEnd (Parser.new_Parser text_ab_crlf None)
    = Ok ([Some [Some (js "a"); Some (js "b")]], p1)
    /\ Parser.HasMoreRows p1 = false.
Proof.
  eexists. split; [reflexivity|].
  exact (proj1 (ReadToEnd_exhausts (Parser.new_Parser text_ab_crlf None) _ _
                  eq_refl)).
Defined.

(** X11.  Reading after [Dispose]: a disposed parser that had more rows
    throws the error about the end of the Lexer's output at the next
    [ReadNextRow] and at [ReadToEnd]; one that had no more rows returns
    [null], and no row. *)
Theorem Dispose_then_read (p : Parser.Parser) :
  Parser.HasMoreRows (Parser.Dispose p) = Parser.HasMoreRows p
  /\ Parser.ReadNextRow (Parser.Dispose p)
     = (if Parser.HasMoreRows p
        then Throw UnexpectedEndOfLexerOutput
        else Ok (None, Parser.Dispose p))
  /\ Parser.ReadToEnd (Parser.Dispose p)
     = (if Parser.HasMoreRows p
        then Throw UnexpectedEndOfLexerOutput
        else Ok ([], Parser.Dispose p)).
Proof.
  destruct p as [g [[ty v]|]]; [destruct ty|]; repeat split; reflexivity.
Qed.

(** ** What the Writer hands to its sink *)

Section WriterText.

Variable s : ParseSettings.
Variable wrap : jsstring -> jsstring.
Hypothesis wrap_ok : forall t,
  Writer.WrapValueForCsv (Some t) s = Ok (Some (wrap t)).

Lemma WriteAll_text (values : list jsstring) :
  forall out started,
    Writer.WriteAll (Writer.mkWriter s out started) values
    = Ok (Writer.mkWriter s
            (out ++ fieldsText (FieldDelimiter s) started
                      (List.map wrap values))
            (started || negb (Parser.isNull (hd_error values)))).
Proof.
  induction values as [|v values IH]; intros out started.
  - simpl. now rewrite app_nil_r, orb_false_r.
  - cbn [Writer.WriteAll]. unfold Writer.Write. cbn [Writer.Settings].
    rewrite wrap_ok. cbn [bind]. unfold Writer.WriteRawValue.
    cbn [Writer.Settings Writer.Writer_ Writer.LineAlreadyStarted
         Writer.orEmpty].
    rewrite IH. cbn [List.map fieldsText hd_error Parser.isNull negb orb].
    rewrite orb_true_r. unfold Writer.write.
    destruct started; now rewrite <- !app_assoc.
Qed.

Lemma WriteLine_text (values : list jsstring) (out : jsstring)
    (started : bool) :
  Writer.WriteLine (Writer.mkWriter s out started) values
  = Ok (Writer.mkWriter s
          (out ++ fieldsText (FieldDelimiter s) started
                    (List.map wrap values) ++ RowDelimiter s)
          false).
Proof.
  unfold Writer.WriteLine. rewrite WriteAll_text. cbn [bind].
  unfold Writer.WriteRawLine, Writer.write.
  cbn [Writer.Settings Writer.Writer_].
  now rewrite app_nil_r, <- app_assoc.
Qed.

Lemma WriteLines_text (lines : list (list jsstring)) :
  forall out,
    WriteLines (Writer.mkWriter s out false) lines
    = Ok (Writer.mkWriter s
            (out ++ concat (List.map
                              (lineText (FieldDelimiter s) (RowDelimiter s)
                                 wrap) lines))
            false).
Proof.
  induction lines as [|values lines IH]; intros out.
  - simpl. now rewrite app_nil_r.
  - cbn [WriteLines]. rewrite WriteLine_text. cbn [bind].
    rewrite IH. cbn [List.map concat]. unfold lineText at 2.
    now rewrite <- !app_assoc.
Qed.

End WriterText.

Lemma wrapMinimal_ok (t : jsstring) :
  Writer.WrapValueForCsv (Some t) defaultSettings = Ok (Some (wrapMinimal t)).
Proof.
  destruct t as [|c t]; [reflexivity|].
  apply WrapValueForCsv_default. discriminate.
Qed.

Lemma wrapQuoteAll_ok (t : jsstring) :
  Writer.WrapValueForCsv (Some t) quoteAllSettings
  = Ok (Some (wrapQuoteAll t)).
Proof. destruct t as [|c t]; reflexivity. Qed.

(** X12.  What the Writer writes under the default settings: for every
    sequence of lines, each a sequence of values, calling [WriteLine] for
    each line on a fresh Writer succeeds and hands the sink, line after
    line, the wrapped values separated by commas and followed by CR LF;
    a value is wrapped in quotes, its quotes doubled, exactly when it holds
    a quote, a comma or CR LF. *)
Theorem WriteLines_default_text (lines : list (list jsstring)) :
  writtenLines defaultSettings lines
  = Ok (concat (List.map (lineText [COMMA] [CR; LF] wrapMinimal) lines)).
Proof.
  unfold writtenLines, Writer.new_Writer. cbn [Parser.orDefault].
  rewrite (WriteLines_text defaultSettings wrapMinimal wrapMinimal_ok).
  reflexivity.
Qed.

(** X13.  What the Writer writes in QuoteAll mode: every value of every
    line is written between quotes with its quotes doubled, the empty
    string as two quotes; values are separated by commas and lines ended
    by CR LF. *)
Theorem WriteLines_quoteAll_text (lines : list (list jsstring)) :
  writtenLines quoteAllSettings lines
  = Ok (concat (List.map (lineText [COMMA] [CR; LF] wrapQuoteAll) lines)).
Proof.
  unfold writtenLines, Writer.new_Writer. cbn [Parser.orDefault].
  rewrite (WriteLines_text quoteAllSettings wrapQuoteAll wrapQuoteAll_ok).
  reflexivity.
Qed.

(** ** Reading one written field, followed by a separator *)

Lemma scanD_separator (sep : Separator) (rest buffer : jsstring) :
  Lexer.scanLoop defaultSettings (separatorText sep ++ rest) buffer
  = Lexer.flush buffer
    ++ separatorToken sep :: Lexer.scanLoop defaultSettings rest [].
Proof. destruct sep; reflexivity. Qed.

Lemma separator_not_LF (sep : Separator) (rest : jsstring) :
  startsWith (separatorText sep ++ rest) [LF] = false.
Proof. destruct sep; reflexivity. Qed.

Lemma startsWith_app_LF (t after : jsstring) :
  startsWith t [LF] = false -> startsWith after [LF] = false ->
  startsWith (t ++ after) [LF] = false.
Proof. destruct t as [|c t]; intros H1 H2; [exact H2 | exact H1]. Qed.

Lemma scanD_unquoted_then (t : jsstring) :
  forall buffer after,
    ~ In COMMA t -> ~ In DQUOTE t -> includes t [CR; LF] = false ->
    startsWith after [LF] = false ->
    Lexer.scanLoop defaultSettings (t ++ after) buffer
    = Lexer.scanLoop defaultSettings after (buffer ++ t).
Proof.
  induction t as [|c t IH]; intros buffer after Hc Hq Hr Ha.
  - now rewrite app_nil_r.
  - apply includes_cons in Hr. destruct Hr as [Hs Hr].
    simpl in Hc, Hq.
    replace (buffer ++ c :: t) with ((buffer ++ [c]) ++ t)
      by now rewrite <- app_assoc.
    rewrite <- app_comm_cons.
    destruct (N.eq_dec c CR) as [->|Hcr].
    + rewrite scanD_lone_cr by (apply startsWith_app_LF; assumption).
      apply IH; tauto.
    + rewrite scanD_plain by intuition. apply IH; tauto.
Qed.

Lemma fieldLoop_unquoted_then (t : jsstring) (sep : Separator)
    (toks : list Token) :
  Parser.fieldLoop (Lexer.flush t ++ separatorToken sep :: toks)
    (Parser.mkFieldState [] false false)
  = Ok (fieldOf t,
        Parser.mkParser (Yields toks) (Some (separatorToken sep))).
Proof.
  destruct t as [|c t]; destruct sep; simpl; try reflexivity;
    unfold join; simpl; now rewrite app_nil_r.
Qed.

Lemma closing_quote_then (nv : list jsstring) (sep : Separator)
    (toks : list Token) :
  nv <> [] ->
  Parser.fieldLoop (QuoteD :: separatorToken sep :: toks)
    (Parser.mkFieldState nv true true)
  = Ok (Some (join nv),
        Parser.mkParser (Yields toks) (Some (separatorToken sep))).
Proof. destruct nv; [contradiction|]. destruct sep; reflexivity. Qed.

Lemma startsWith_doubled_LF_then (t after : jsstring) :
  startsWith t [LF] = false ->
  startsWith (doubled DQUOTE t ++ DQUOTE :: after) [LF] = false.
Proof.
  destruct t as [|c t]; [reflexivity|]. intros H.
  destruct (N.eq_dec c DQUOTE) as [->|Hc].
  - rewrite doubled_same. reflexivity.
  - rewrite doubled_other by exact Hc. exact H.
Qed.

Lemma quoted_body_then (sep : Separator) (rest : jsstring) (n : nat) :
  forall (t buffer : jsstring) (nv : list jsstring),
    length t <= n ->
    nv <> [] \/ buffer <> [] \/ t <> [] ->
    Parser.fieldLoop
      (Lexer.scanLoop defaultSettings
         (doubled DQUOTE t ++ DQUOTE :: separatorText sep ++ rest) buffer)
      (Parser.mkFieldState nv true true)
    = Ok (Some (join nv ++ buffer ++ t),
          Parser.mkParser (Yields (Lexer.scanLoop defaultSettings rest []))
            (Some (separatorToken sep))).
Proof.
  induction n as [|n IH]; intros t buffer nv Hlen Hne.
  all: destruct t as [|c t]; [|try (simpl in Hlen; lia)].
  1, 2: cbn [doubled flat_map app];
    rewrite scanD_quote, fieldLoop_flush_quoted, scanD_separator;
    cbn [Lexer.flush app];
    rewrite closing_quote_then, join_textPiece, app_nil_r;
    [ reflexivity
    | intros E; apply textPiece_nil in E; destruct E; subst;
      intuition congruence ].
  simpl in Hlen.
  assert (Hgrow : forall x, (nv ++ textPiece buffer) ++ [x] <> [])
    by (intros x; destruct (nv ++ textPiece buffer); discriminate).
  destruct (N.eq_dec c COMMA) as [->|Hcomma].
  { rewrite doubled_other by discriminate.
    rewrite <- app_comm_cons, scanD_comma, fieldLoop_flush_quoted. simpl.
    rewrite IH; [|lia|left; apply Hgrow].
    rewrite join_snoc, join_textPiece. simpl.
    now rewrite <- !app_assoc. }
  destruct (N.eq_dec c DQUOTE) as [->|Hquote].
  { rewrite doubled_same.
    rewrite <- !app_comm_cons, scanD_quote, scanD_quote,
      fieldLoop_flush_quoted. simpl.
    rewrite IH; [|lia|left; apply Hgrow].
    rewrite join_snoc, join_textPiece. simpl.
    now rewrite <- !app_assoc. }
  rewrite doubled_other by exact Hquote.
  rewrite <- app_comm_cons.
  destruct (N.eq_dec c CR) as [->|Hcr].
  - destruct (startsWith t [LF]) eqn:Hlf.
    + apply startsWith_LF_true in Hlf. destruct Hlf as [t' ->].
      rewrite doubled_other by discriminate.
      rewrite <- app_comm_cons, scanD_crlf, fieldLoop_flush_quoted. simpl.
      simpl in Hlen.
      rewrite IH; [|lia|left; apply Hgrow].
      rewrite join_snoc, join_textPiece. simpl.
      now rewrite <- !app_assoc.
    + rewrite scanD_lone_cr by (apply startsWith_doubled_LF_then; exact Hlf).
      rewrite IH; [|lia|right; left; destruct buffer; discriminate].
      now rewrite <- !app_assoc.
  - rewrite scanD_plain by assumption.
    rewrite IH; [|lia|right; left; destruct buffer; discriminate].
    now rewrite <- !app_assoc.
Qed.

Lemma read_quoted (t : jsstring) (sep : Separator) (rest : jsstring) :
  Parser.fieldLoop
    (Lexer.scanLoop defaultSettings
       (wrapQuoteAll t ++ separatorText sep ++ rest) [])
    (Parser.mkFieldState [] false false)
  = Ok (fieldOf t,
        Parser.mkParser (Yields (Lexer.scanLoop defaultSettings rest []))
          (Some (separatorToken sep))).
Proof.
  unfold wrapQuoteAll.
  rewrite <- app_comm_cons, <- app_assoc, scanD_quote.
  cbn [Lexer.flush app Parser.fieldLoop].
  change (Parser.fieldStep QuoteD (Parser.mkFieldState [] false false))
    with (Parser.Continue (Parser.mkFieldState [] true true)).
  cbv iota. cbn [app].
  destruct t as [|c t].
  - cbn [doubled flat_map app]. rewrite scanD_quote, scanD_separator.
    destruct sep; reflexivity.
  - rewrite (quoted_body_then sep rest (length (c :: t))); auto.
    right; right; discriminate.
Qed.

Lemma read_minimal (t : jsstring) (sep : Separator) (rest : jsstring) :
  Parser.fieldLoop
    (Lexer.scanLoop defaultSettings
       (wrapMinimal t ++ separatorText sep ++ rest) [])
    (Parser.mkFieldState [] false false)
  = Ok (fieldOf t,
        Parser.mkParser (Yields (Lexer.scanLoop defaultSettings rest []))
          (Some (separatorToken sep))).
Proof.
  unfold wrapMinimal.
  destruct (includes t [DQUOTE] || includes t [COMMA]
            || includes t [CR; LF]) eqn:E.
  - apply (read_quoted t sep rest).
  - apply orb_false_iff in E. destruct E as [E Hr].
    apply orb_false_iff in E. destruct E as [Hq Hc].
    apply includes_single in Hq, Hc.
    rewrite scanD_unquoted_then;
      [|assumption|assumption|assumption|apply separator_not_LF].
    rewrite scanD_separator. apply fieldLoop_unquoted_then.
Qed.

(** ** The fuel of a loop does not change its result *)

Lemma ReadNextCsvValues_fuel_agree (f : nat) :
  forall p r,
    Parser.ReadNextCsvValues_fuel f p = Ok r ->
    forall f', Parser.ReadNextCsvValues_fuel f' p = OutOfFuel
               \/ Parser.ReadNextCsvValues_fuel f' p = Ok r.
Proof.
  induction f as [|f IH]; intros p r H f'; [discriminate|].
  destruct f' as [|f']; [left; reflexivity|].
  cbn [Parser.ReadNextCsvValues_fuel] in H |- *.
  destruct (Parser.ReadNextCsvValue p) as [[v p1]|e| |]; try discriminate.
  cbn [bind] in H |- *.
  destruct (TokenType_eqb (Parser.CurrentTokenType p1) Delimiter);
    [|right; exact H].
  destruct (Parser.ReadNextCsvValues_fuel f p1) as [[others p2]|e| |] eqn:E;
    try discriminate.
  destruct (IH p1 _ E f') as [H'|H']; rewrite H'; [left; reflexivity|].
  right. exact H.
Qed.

Lemma ReadNextCsvValues_any_fuel (f : nat) (p : Parser.Parser)
    (r : Row * Parser.Parser) :
  Parser.ReadNextCsvValues_fuel f p = Ok r ->
  Parser.ReadNextCsvValues p = Ok r.
Proof.
  intros H. unfold Parser.ReadNextCsvValues.
  destruct (ReadNextCsvValues_fuel_agree f p r H (S (Parser.pending p)))
    as [H'|H']; [|exact H'].
  destruct (ReadNextCsvValues_fuel_total (S (Parser.pending p)) p)
    as [[e He]|(row & p1 & He & _)]; [lia | |]; rewrite He in H';
    discriminate.
Qed.

Lemma ReadToEnd_fuel_agree (f : nat) :
  forall p acc r,
    Parser.ReadToEnd_fuel f p acc = Ok r ->
    forall f', Parser.ReadToEnd_fuel f' p acc = OutOfFuel
               \/ Parser.ReadToEnd_fuel f' p acc = Ok r.
Proof.
  induction f as [|f IH]; intros p acc r H f'; [discriminate|].
  destruct f' as [|f']; [left; reflexivity|].
  cbn [Parser.ReadToEnd_fuel] in H |- *.
  destruct (Parser.HasMoreRows p); [|right; exact H].
  destruct (Parser.ReadNextRow p) as [[next p1]|e| |]; try discriminate.
  cbn [bind] in H |- *.
  destruct (Parser.HasMoreRows p1 || negb (Parser.isNull next));
    apply (IH _ _ _ H).
Qed.

Lemma ReadToEnd_any_fuel (f : nat) (p : Parser.Parser)
    (r : list (option Row) * Parser.Parser) :
  Parser.ReadToEnd_fuel f p [] = Ok r ->
  Parser.ReadToEnd p = Ok r.
Proof.
  intros H. unfold Parser.ReadToEnd.
  destruct (ReadToEnd_fuel_agree f p [] r H (S (Parser.pending p)))
    as [H'|H']; [|exact H'].
  destruct (ReadToEnd_fuel_total (S (Parser.pending p)) p [])
    as [[e He]|(rows & p1 & He)]; [lia | |]; rewrite He in H'; discriminate.
Qed.

(** ** Reading written lines back *)

Lemma ReadNextCsvValues_fuel_S (fuel : nat) (p : Parser.Parser) :
  Parser.ReadNextCsvValues_fuel (S fuel) p
  = ' (nextValue, p1) <- Parser.ReadNextCsvValue p;;
    if TokenType_eqb (Parser.CurrentTokenType p1) Delimiter then
      ' (others, p2) <- Parser.ReadNextCsvValues_fuel fuel p1;;
      Ok (nextValue :: others, p2)
    else Ok ([nextValue], p1).
Proof. reflexivity. Qed.

Lemma ReadToEnd_fuel_S (fuel : nat) (p : Parser.Parser)
    (rows : list (option Row)) :
  Parser.ReadToEnd_fuel (S fuel) p rows
  = if Parser.HasMoreRows p then
      ' (nextRowValues, p1) <- Parser.ReadNextRow p;;
      if Parser.HasMoreRows p1 || negb (Parser.isNull nextRowValues)
      then Parser.ReadToEnd_fuel fuel p1 (rows ++ [nextRowValues])
      else Parser.ReadToEnd_fuel fuel p1 rows
    else Ok (rows, p).
Proof. reflexivity. Qed.

Section ReadLines.

Variable A : Type.                  (* the values written *)
Variable wrap : A -> jsstring.      (* the text written for a value *)
Variable field : A -> Field.        (* the field it reads back as *)
Hypothesis read_wrapped : forall t sep rest,
  Parser.fieldLoop
    (Lexer.scanLoop defaultSettings (wrap t ++ separatorText sep ++ rest) [])
    (Parser.mkFieldState [] false false)
  = Ok (field t,
        Parser.mkParser (Yields (Lexer.scanLoop defaultSettings rest []))
          (Some (separatorToken sep))).

Lemma about_to_read_after (sep : Separator) (rest : jsstring) :
  about_to_read
    (Parser.mkParser (Yields (Lexer.scanLoop defaultSettings rest []))
       (Some (separatorToken sep))) rest.
Proof. split; [reflexivity | destruct sep; reflexivity]. Qed.

Lemma about_to_read_new (text : jsstring) :
  about_to_read (Parser.new_Parser text (Some defaultSettings)) text.
Proof. split; reflexivity. Qed.

Lemma ReadNextCsvValue_wrapped (p : Parser.Parser) (t : A)
    (sep : Separator) (rest : jsstring) :
  about_to_read p (wrap t ++ separatorText sep ++ rest) ->
  Parser.ReadNextCsvValue p
  = Ok (field t,
        Parser.mkParser (Yields (Lexer.scanLoop defaultSettings rest []))
          (Some (separatorToken sep))).
Proof.
  intros [Ht Hc]. unfold Parser.ReadNextCsvValue.
  rewrite Hc, Ht. apply read_wrapped.
Qed.

Lemma read_values (vs : list A) :
  forall v p rest,
    about_to_read p
      (wrap v ++ fieldsText [COMMA] true (List.map wrap vs)
       ++ [CR; LF] ++ rest) ->
    Parser.ReadNextCsvValues_fuel (S (length vs)) p
    = Ok (field v :: List.map field vs,
          Parser.mkParser (Yields (Lexer.scanLoop defaultSettings rest []))
            (Some LineSeparatorD)).
Proof.
  induction vs as [|v2 vs IH]; intros v p rest Hp.
  - cbn [Parser.ReadNextCsvValues_fuel].
    rewrite (ReadNextCsvValue_wrapped p v AfterLine rest Hp). reflexivity.
  - cbn [length]. rewrite ReadNextCsvValues_fuel_S.
    cbn [List.map fieldsText] in Hp.
    rewrite <- !app_assoc in Hp.
    rewrite (ReadNextCsvValue_wrapped p v AfterField _ Hp).
    cbn [bind].
    change (TokenType_eqb
              (Parser.CurrentTokenType
                 (Parser.mkParser
                    (Yields (Lexer.scanLoop defaultSettings
                       (wrap v2 ++ fieldsText [COMMA] true (List.map wrap vs)
                        ++ [CR; LF] ++ rest) []))
                    (Some (separatorToken AfterField)))) Delimiter)
      with true.
    cbv iota.
    rewrite (IH v2 _ rest (about_to_read_after AfterField _)).
    reflexivity.
Qed.

Lemma read_line (values : list A) (p : Parser.Parser)
    (rest : jsstring) :
  about_to_read p (writtenLine wrap values ++ rest) ->
  Parser.ReadNextRow p
  = Ok (Some (readRow field values),
        Parser.mkParser (Yields (Lexer.scanLoop defaultSettings rest []))
          (Some LineSeparatorD)).
Proof.
  intros Hp.
  assert (Hv : Parser.ReadNextCsvValues p
               = Ok (readRow field values,
                     Parser.mkParser
                       (Yields (Lexer.scanLoop defaultSettings rest []))
                       (Some LineSeparatorD))).
  { destruct values as [|v vs].
    - apply ReadNextCsvValues_any_fuel with 1.
      destruct Hp as [Ht Hc].
      cbn [Parser.ReadNextCsvValues_fuel]. unfold Parser.ReadNextCsvValue.
      rewrite Hc, Ht. reflexivity.
    - apply ReadNextCsvValues_any_fuel with (S (length vs)).
      apply read_values. unfold writtenLine in Hp.
      cbn [List.map fieldsText app] in Hp.
      rewrite <- !app_assoc in Hp. exact Hp. }
  unfold Parser.ReadNextRow, Parser.HasMoreRows.
  destruct Hp as [_ Hc]. rewrite Hc. cbn [negb]. rewrite Hv. reflexivity.
Qed.

Lemma read_end (p : Parser.Parser) :
  about_to_read p [] ->
  Parser.ReadNextRow p
  = Ok (None, Parser.mkParser (Yields []) (Some EndOfFileD)).
Proof.
  intros [Ht Hc].
  assert (Hv : Parser.ReadNextCsvValues p
               = Ok ([None], Parser.mkParser (Yields []) (Some EndOfFileD))).
  { apply ReadNextCsvValues_any_fuel with 1.
    cbn [Parser.ReadNextCsvValues_fuel]. unfold Parser.ReadNextCsvValue.
    rewrite Hc, Ht. reflexivity. }
  unfold Parser.ReadNextRow, Parser.HasMoreRows.
  rewrite Hc. cbn [negb]. rewrite Hv. reflexivity.
Qed.

Lemma read_lines (lines : list (list A)) :
  forall p acc,
    about_to_read p (concat (List.map (writtenLine wrap) lines)) ->
    Parser.ReadToEnd_fuel (length lines + 2) p acc
    = Ok (acc ++ List.map (fun values => Some (readRow field values)) lines,
          Parser.mkParser (Yields []) (Some EndOfFileD)).
Proof.
  induction lines as [|values lines IH]; intros p acc Hp.
  - cbn [length Nat.add List.map]. rewrite ReadToEnd_fuel_S.
    rewrite (read_end p Hp).
    unfold Parser.HasMoreRows at 1. destruct Hp as [_ Hc]. rewrite Hc.
    cbn. now rewrite app_nil_r.
  - cbn [length Nat.add]. rewrite ReadToEnd_fuel_S.
    cbn [List.map concat] in Hp.
    rewrite (read_line values p _ Hp).
    unfold Parser.HasMoreRows at 1. destruct Hp as [_ Hc]. rewrite Hc.
    cbn [negb bind Parser.isNull orb].
    rewrite orb_true_r.
    rewrite (IH _ _ (about_to_read_after AfterLine _)).
    cbn [List.map]. now rewrite <- app_assoc.
Qed.

Lemma Parse_lines (lines : list (list A)) :
  Parser.Parse (concat (List.map (writtenLine wrap) lines))
    (Some defaultSettings)
  = Ok (List.map (fun values => Some (readRow field values)) lines).
Proof.
  unfold Parser.Parse.
  rewrite (ReadToEnd_any_fuel (length lines + 2) _ _
             (read_lines lines _ [] (about_to_read_new _))).
  reflexivity.
Qed.

End ReadLines.

(** ** Round trips between Writer and Parser *)

Lemma quoteAll_as_default (csv : jsstring) :
  Parser.new_Parser csv (Some quoteAllSettings)
  = Parser.new_Parser csv (Some defaultSettings).
Proof. apply new_Parser_sameDelimiters. repeat split. Qed.

(** X14.  Round trip of whole tables under the default settings: for every
    sequence of lines of values, what a fresh Writer writes for them
    parses back to one row per line, in order, with the values of the line
    as fields in order; an empty value comes back as [null] and a line
    without values as a row of one [null] field.  No value, whatever
    quotes, commas, CR or LF it holds, breaks a field or a row. *)
Theorem write_then_parse_default (lines : list (list jsstring)) :
  writeLinesThenParse defaultSettings lines
  = Ok (List.map (fun values => Some (rowOfValues values)) lines).
Proof.
  unfold writeLinesThenParse, writtenLines, Writer.new_Writer.
  cbn [Parser.orDefault].
  rewrite (WriteLines_text defaultSettings wrapMinimal wrapMinimal_ok).
  cbn [bind Writer.Writer_ app].
  exact (Parse_lines jsstring wrapMinimal fieldOf read_minimal lines).
Qed.

(** X15.  The same round trip in QuoteAll mode: what a fresh Writer writes
    for any lines of values parses back to one row per line with the values
    as fields, an empty value (written as two quotes) coming back as
    [null]. *)
Theorem write_then_parse_quoteAll (lines : list (list jsstring)) :
  writeLinesThenParse quoteAllSettings lines
  = Ok (List.map (fun values => Some (rowOfValues values)) lines).
Proof.
  unfold writeLinesThenParse, writtenLines, Writer.new_Writer.
  cbn [Parser.orDefault].
  rewrite (WriteLines_text quoteAllSettings wrapQuoteAll wrapQuoteAll_ok).
  cbn [bind Writer.Writer_ app].
  unfold Parser.Parse. rewrite quoteAll_as_default.
  exact (Parse_lines jsstring wrapQuoteAll fieldOf read_quoted lines).
Qed.

(** X16.  Escaping round trip in QuoteAll mode: every text is wrapped
    between quotes with its quotes doubled, and [ParseSingleRow] of the
    wrapped text returns the one field [t] when [t] is not empty and the
    empty row when it is; an absent value is wrapped like the empty
    string. *)
Theorem quoteAll_escaping_round_trip (t : jsstring) :
  Writer.WrapValueForCsv (Some t) quoteAllSettings
  = Ok (Some (wrapQuoteAll t))
  /\ Writer.WrapValueForCsv None quoteAllSettings
     = Ok (Some (wrapQuoteAll []))
  /\ Parser.ParseSingleRow (wrapQuoteAll t) (Some quoteAllSettings)
     = Ok match t with
          | [] => []
          | _ => [Some t]
          end.
Proof.
  split; [apply wrapQuoteAll_ok|]. split; [reflexivity|].
  unfold Parser.ParseSingleRow. rewrite quoteAll_as_default.
  change (Parser.ParseSingleRow (wrapQuoteAll t) (Some defaultSettings)
          = Ok match t with [] => [] | _ => [Some t] end).
  destruct t as [|c t]; [reflexivity|].
  apply ParseSingleRow_one_field. unfold wrapQuoteAll.
  rewrite scanD_quote. cbn [Lexer.flush app Parser.fieldLoop].
  change (Parser.fieldStep QuoteD (Parser.mkFieldState [] false false))
    with (Parser.Continue (Parser.mkFieldState [] true true)).
  cbv iota.
  rewrite (quoted_body (length (c :: t)) (c :: t) [] []); auto.
  right; right; discriminate.
Qed.

(** ** Formattable values *)

(** X18.  An absent formattable value is written as nothing, in every
    quoting mode: only the field delimiter is written when the line has
    started.  In QuoteAll mode this differs from [Write] of an absent
    string, which writes two quotes. *)
Theorem WriteFormattable_absent (culture : Formattable.CultureInfo)
    (s : ParseSettings) (out : jsstring) (started : bool)
    (format : option jsstring) :
  Formattable.WriteFormattable culture (Writer.mkWriter s out started)
    None format
  = Ok (Writer.mkWriter s
          (out ++ (if started then FieldDelimiter s else [])) true)
  /\ Writer.Write (Writer.mkWriter quoteAllSettings out started) None
     = Ok (Writer.mkWriter quoteAllSettings
             (out ++ (if started then [COMMA] else [])
                  ++ [DQUOTE; DQUOTE]) true).
Proof.
  split.
  - unfold Formattable.WriteFormattable, Writer.WriteRawValue, Writer.write.
    cbn [Writer.Settings Writer.Writer_ Writer.LineAlreadyStarted
         Writer.orEmpty].
    destruct started; now rewrite !app_nil_r.
  - unfold Writer.Write, Writer.WriteRawValue, Writer.write.
    cbn. destruct started; now rewrite <- ?app_assoc.
Qed.

(** ** Wrapping under other quote characters *)

Lemma includes_true_In (s : jsstring) (c : code) :
  includes s [c] = true -> In c s.
Proof.
  intros H. destruct (in_dec N.eq_dec c s) as [Hin|Hn]; [exact Hin|].
  apply includes_single in Hn. rewrite Hn in H. discriminate.
Qed.

Lemma compile_literal (q : code) :
  RegExp.mem q patternSyntax = false ->
  RegExp.compile [q] = Ok (RegExp.Literal q).
Proof.
  intros H. unfold RegExp.mem, patternSyntax in H. cbn [existsb] in H.
  repeat (apply orb_false_iff in H; destruct H as [? H]).
  unfold RegExp.compile, RegExp.mem. cbn [existsb].
  repeat match goal with
         | E : N.eqb q _ = false |- _ => rewrite E; clear E
         end.
  reflexivity.
Qed.

(** X19.  Minimal mode under any single quote character that a regular
    expression reads as itself: an absent value stays absent, the empty
    string stays empty, a value holding the quote character, the field
    delimiter or the row delimiter is put between quote characters with
    every quote character in it doubled and nothing else changed, and any
    other value is returned as it is.  No error is raised. *)
Theorem WrapValueForCsv_minimal (s : ParseSettings) (q : code)
    (value : jsstring)
    (Hm : QuotingMode_ s = Minimal)
    (Hq : QuotingCharacter s = [q])
    (Hlit : RegExp.mem q patternSyntax = false) :
  Writer.WrapValueForCsv None s = Ok None
  /\ Writer.WrapValueForCsv (Some value) s
     = Ok (Some match value with
                | [] => []
                | _ =>
                    if includes value [q]
                       || includes value (FieldDelimiter s)
                       || includes value (RowDelimiter s)
                    then [q] ++ doubled q value ++ [q]
                    else value
                end).
Proof.
  unfold Writer.WrapValueForCsv, Writer.WrapValueForCsvUsingMinimalMode.
  rewrite Hm, Hq. split; [reflexivity|].
  destruct value as [|c value]; [reflexivity|].
  destruct (includes (c :: value) [q]) eqn:E.
  - cbn [orb]. apply includes_true_In in E.
    pose proof (WrapValueForCsv_literal_quote s q (c :: value) Hm Hq
                  (compile_literal q Hlit) E) as W.
    unfold Writer.WrapValueForCsv, Writer.WrapValueForCsvUsingMinimalMode
      in W.
    rewrite Hm, Hq in W.
    assert (E' : includes (c :: value) [q] = true).
    { destruct (includes (c :: value) [q]) eqn:E'; [reflexivity|].
      apply includes_single in E'. contradiction. }
    rewrite E' in W. exact W.
  - apply includes_single in E. rewrite (doubled_absent q _ E).
    destruct (false || includes (c :: value) (FieldDelimiter s)
              || includes (c :: value) (RowDelimiter s)); reflexivity.
Qed.

Lemma WrapValueForCsv_minimal_witness :
  Writer.WrapValueForCsv (Some (js "it's;here"))
    (mkSettings (js ";") [LF] (js "'") Minimal)
  = Ok (Some (js "'it''s;here'")).
Proof.
  exact (proj2 (WrapValueForCsv_minimal
                  (mkSettings (js ";") [LF] (js "'") Minimal) 39%N
                  (js "it's;here") eq_refl eq_refl eq_refl)).
Defined.

(** X20.  [ParseSingleRow] reads the first line only: the text of a line
    written under the default settings, followed by any text at all, even
    one on which [Parse] throws, parses as a single row to the values of
    that line (an empty value as [null]). *)
Theorem ParseSingleRow_first_line (values : list jsstring)
    (rest : jsstring) :
  Parser.ParseSingleRow
    (lineText [COMMA] [CR; LF] wrapMinimal values ++ rest)
    (Some defaultSettings)
  = Ok (rowOfValues values).
Proof.
  unfold Parser.ParseSingleRow.
  change (lineText [COMMA] [CR; LF] wrapMinimal values)
    with (writtenLine wrapMinimal values).
  rewrite (read_line jsstring wrapMinimal fieldOf read_minimal values _ rest
             (about_to_read_new _)).
  reflexivity.
Qed.

(** ** Special characters and their tokens *)

Lemma specialToken_cases (settings : ParseSettings) (c : code) (tok : Token) :
  specialToken settings c = Some tok ->
  (jseq [c] (FieldDelimiter settings) = true
   /\ tok = Lexer.FieldDelimiterToken settings)
  \/ (jseq [c] (FieldDelimiter settings) = false
      /\ jseq [c] (QuotingCharacter settings) = true
      /\ tok = Lexer.QuoteToken settings).
Proof.
  unfold specialToken, Lexer.FieldDelimiterToken, Lexer.QuoteToken.
  destruct (jseq [c] (FieldDelimiter settings)) eqn:Ef.
  - intros H. inversion H. apply jseq_eq in Ef. rewrite <- Ef. auto.
  - destruct (jseq [c] (QuotingCharacter settings)) eqn:Eq; [|discriminate].
    intros H. inversion H. apply jseq_eq in Eq. rewrite <- Eq. auto.
Qed.

Lemma specialToken_not_ordinary (settings : ParseSettings) (c : code)
    (tok : Token) :
  specialToken settings c = Some tok -> ~ ordinary settings c.
Proof.
  intros H [Hf Hq]. apply specialToken_cases in H.
  destruct H as [[H _]|(_ & H & _)]; apply jseq_eq in H; auto.
Qed.

Lemma scanLoop_special_split (settings : ParseSettings) (n : nat) :
  Lexer.validateSettings settings = None ->
  secondIsOrdinary settings ->
  forall input buffer pre c post tok,
    length input <= n ->
    input = pre ++ c :: post ->
    specialToken settings c = Some tok ->
    exists tpre tpost,
      Lexer.scanLoop settings input buffer = tpre ++ tok :: tpost
      /\ textOf tpre = buffer ++ pre
      /\ textOf tpost = post.
Proof.
  intros Hv Hs.
  induction n as [|n IH]; intros input buffer pre c post tok Hlen Hin Htok;
    subst input.
  { destruct pre; simpl in Hlen; lia. }
  destruct pre as [|x pre].
  - (* the special character is the current character *)
    cbn [app Lexer.scanLoop].
    assert (Hpost : textOf (Lexer.scanLoop settings post []) = post)
      by (apply (scanLoop_textOf settings (length post) Hv); lia).
    destruct (specialToken_cases settings c tok Htok)
      as [[Ef ->]|(Ef & Eq & ->)]; rewrite Ef; [|rewrite Eq].
    all: eexists (Lexer.flush buffer), _; split; [reflexivity|];
      rewrite textOf_flush, app_nil_r; auto.
  - (* it comes later: the current character [x] is dealt with first *)
    rewrite <- app_comm_cons in Hlen |- *. simpl in Hlen.
    assert (Hy : forall special rest0 pre0,
               Parser.valueOrEmpty special ++ pre0 = x :: pre ->
               length rest0 <= n -> rest0 = pre0 ++ c :: post ->
               exists tpre tpost,
                 Lexer.yieldSpecial buffer special
                   (Lexer.scanLoop settings rest0 []) = tpre ++ tok :: tpost
                 /\ textOf tpre = buffer ++ x :: pre
                 /\ textOf tpost = post).
    { intros special rest0 pre0 Hval H0 Hr.
      destruct (IH rest0 [] pre0 c post tok H0 Hr Htok)
        as (tpre & tpost & Ht & Hpre & Hpost).
      exists (Lexer.flush buffer ++ special :: tpre), tpost.
      split; [unfold Lexer.yieldSpecial; rewrite Ht, <- app_assoc;
              reflexivity|].
      split; [|exact Hpost].
      rewrite textOf_app, textOf_flush.
      change (special :: tpre) with ([special] ++ tpre).
      rewrite textOf_app, Hpre. unfold textOf at 1. simpl.
      rewrite app_nil_r, <- Hval. reflexivity. }
    assert (Hfold : exists tpre tpost,
               Lexer.scanLoop settings (pre ++ c :: post) (buffer ++ [x])
               = tpre ++ tok :: tpost
               /\ textOf tpre = buffer ++ x :: pre
               /\ textOf tpost = post).
    { destruct (IH (pre ++ c :: post) (buffer ++ [x]) pre c post tok)
        as (tpre & tpost & Ht & Hpre & Hpost); auto; [lia|].
      exists tpre, tpost. rewrite <- app_assoc in Hpre. auto. }
    cbn [Lexer.scanLoop].
    destruct (jseq [x] (FieldDelimiter settings)) eqn:Ef.
    { apply jseq_eq in Ef. apply Hy with pre; [|lia|reflexivity].
      unfold Lexer.FieldDelimiterToken, Parser.valueOrEmpty. simpl.
      now rewrite <- Ef. }
    destruct (jseq [x] (QuotingCharacter settings)) eqn:Eq.
    { apply jseq_eq in Eq. apply Hy with pre; [|lia|reflexivity].
      unfold Lexer.QuoteToken, Parser.valueOrEmpty. simpl.
      now rewrite <- Eq. }
    destruct (Lexer.isFirst settings x) eqn:E1; [|exact Hfold].
    destruct (Lexer.second settings) as [c2|] eqn:E2.
    + assert (Hc2 : ordinary settings c2).
      { apply (Hs x c2 E1); [|exact E2].
        split; apply jseq_false; assumption. }
      destruct pre as [|y pre].
      * (* the special character follows [x]: it is not [c2] *)
        cbn [app] in Hfold |- *.
        destruct (N.eqb c c2) eqn:En; [|exact Hfold].
        apply N.eqb_eq in En. subst c2.
        exfalso. exact (specialToken_not_ordinary settings c tok Htok Hc2).
      * rewrite <- app_comm_cons in Hlen, Hfold |- *. simpl in Hlen.
        destruct (N.eqb y c2) eqn:En; [|exact Hfold].
        apply N.eqb_eq in En. subst y.
        apply Hy with pre; [|lia|reflexivity].
        unfold Lexer.LineSeparatorToken, Parser.valueOrEmpty. simpl.
        now rewrite (second_Some settings x c2 Hv E1 E2).
    + apply Hy with pre; [|lia|reflexivity].
      unfold Lexer.LineSeparatorToken, Parser.valueOrEmpty. simpl.
      now rewrite (second_None settings x E1 E2).
Qed.

Lemma secondIsOrdinary_default : secondIsOrdinary defaultSettings.
Proof.
  intros f c2 _ _ H. inversion H; subst c2. split; discriminate.
Qed.

(** C10 (amended).  Whenever scanning succeeds, every Text token of the
    sequence has a value, which is not empty and holds no character that
    is the field delimiter or the quote character.  When, moreover, the
    look-ahead for the second character of the row delimiter cannot
    consume such a character (the row delimiter has one character, or its
    second character is neither of them, or its first character is one of
    them), every occurrence of the field delimiter in the input ends the
    pending buffer and is yielded as a Delimiter token of its own, and
    every occurrence of a quote character that is not the field delimiter
    as a Quote token of its own: the tokens before it stand for exactly the
    text before it, and the tokens after it for the text after it.  A Text
    token may hold the first character of the row delimiter: under the
    default settings a CR b is one Text token. *)
Theorem C10_text_and_special_tokens (settings : ParseSettings)
    (input : jsstring) (toks : list Token)
    (H : Lexer.scan settings input = Yields toks) :
  (forall t, In t toks -> Type_ t = Text ->
     exists v, Value t = Some v /\ v <> []
               /\ forall c, In c v -> ordinary settings c)
  /\ (secondIsOrdinary settings ->
      forall pre c post,
        input = pre ++ c :: post ->
        ([c] = FieldDelimiter settings ->
         exists tpre tpost,
           toks = tpre ++ mkToken Delimiter (Some [c]) :: tpost
           /\ textOf tpre = pre /\ textOf tpost = post)
        /\ ([c] <> FieldDelimiter settings ->
            [c] = QuotingCharacter settings ->
            exists tpre tpost,
              toks = tpre ++ mkToken Quote (Some [c]) :: tpost
              /\ textOf tpre = pre /\ textOf tpost = post))
  /\ Lexer.scan defaultSettings text_a_cr_b
     = Yields [mkToken Text (Some text_a_cr_b); EndOfFileD].
Proof.
  unfold Lexer.scan, Lexer.scanReader in H.
  destruct (Lexer.validateSettings settings) eqn:Hv; [discriminate|].
  inversion H; subst toks. unfold unread. cbn [position content skipn].
  split; [|split; [|reflexivity]].
  - intros t Hin Ht.
    apply (scanLoop_text_tokens settings (length input) input []);
      auto. intros c [].
  - intros Hs pre c post Hin.
    assert (Hsplit : forall tok, specialToken settings c = Some tok ->
              exists tpre tpost,
                Lexer.scanLoop settings input [] = tpre ++ tok :: tpost
                /\ textOf tpre = pre /\ textOf tpost = post).
    { intros tok Htok.
      apply (scanLoop_special_split settings (length input) Hv Hs
               input [] pre c post tok); auto. }
    split.
    + intros Hf. apply Hsplit. unfold specialToken.
      apply jseq_eq in Hf. now rewrite Hf.
    + intros Hf Hq. apply Hsplit. unfold specialToken.
      destruct (jseq [c] (FieldDelimiter settings)) eqn:Ef.
      * apply jseq_eq in Ef. contradiction.
      * apply jseq_eq in Hq. now rewrite Hq.
Qed.

(** C10 at the input ab,c under the default settings: its comma. *)
Lemma C10_text_and_special_tokens_witness :
  Lexer.scan defaultSettings (js "ab,c")
  = Yields [mkToken Text (Some (js "ab")); DelimiterD;
            mkToken Text (Some (js "c")); EndOfFileD]
  /\ exists tpre tpost,
       [mkToken Text (Some (js "ab")); DelimiterD;
        mkToken Text (Some (js "c")); EndOfFileD]
       = tpre ++ mkToken Delimiter (Some [COMMA]) :: tpost
       /\ textOf tpre = js "ab" /\ textOf tpost = js "c".
Proof.
  split; [reflexivity|].
  exact (proj1 (proj1 (proj2
           (C10_text_and_special_tokens defaultSettings (js "ab,c") _
              eq_refl))
           secondIsOrdinary_default (js "ab") COMMA (js "c") eq_refl)
           eq_refl).
Defined.

(** C10, as stated, fails when the second character of the row delimiter
    is the field delimiter: with the row delimiter CR comma, the comma of
    a CR , b is consumed with the CR into the LineSeparator token, and no
    Delimiter token is yielded for it. *)
Lemma C10_consumed_delimiter_counterexample :
  Lexer.scan settingsRowEndsInComma text_a_cr_comma_b
  = Yields [mkToken Text (Some (js "a"));
            mkToken LineSeparator (Some [CR; COMMA]);
            mkToken Text (Some (js "b")); EndOfFileD]
  /\ In COMMA text_a_cr_comma_b
  /\ [COMMA] = FieldDelimiter settingsRowEndsInComma
  /\ Forall (fun t => Type_ t <> Delimiter)
       [mkToken Text (Some (js "a"));
        mkToken LineSeparator (Some [CR; COMMA]);
        mkToken Text (Some (js "b")); EndOfFileD].
Proof.
  split; [reflexivity|]. split; [simpl; auto|]. split; [reflexivity|].
  repeat constructor; discriminate.
Qed.

(** ** Lines of formattable values *)

Section FormattableText.

Variable culture : Formattable.CultureInfo.
Variable s : ParseSettings.
Variable wrapF : Formattable.IFormattable -> jsstring.
Hypothesis write_ok : forall value out started,
  Formattable.WriteFormattable culture (Writer.mkWriter s out started)
    (Some value) None
  = Ok (Writer.mkWriter s
          (out ++ (if started then FieldDelimiter s else []) ++ wrapF value)
          true).

Lemma WriteAllFormattable_text (values : list Formattable.IFormattable) :
  forall out started,
    Formattable.WriteAllFormattable culture (Writer.mkWriter s out started)
      values
    = Ok (Writer.mkWriter s
            (out ++ fieldsText (FieldDelimiter s) started
                      (List.map wrapF values))
            (started || negb (Parser.isNull (hd_error values)))).
Proof.
  induction values as [|v values IH]; intros out started.
  - simpl. now rewrite app_nil_r, orb_false_r.
  - cbn [Formattable.WriteAllFormattable]. rewrite write_ok. cbn [bind].
    rewrite IH. cbn [List.map fieldsText hd_error Parser.isNull negb orb].
    rewrite orb_true_r. now rewrite <- !app_assoc.
Qed.

Lemma WriteLinesFormattable_text
    (lines : list (list Formattable.IFormattable)) :
  forall out,
    Formattable.WriteLinesFormattable culture
      (Writer.mkWriter s out false) lines
    = Ok (Writer.mkWriter s
            (out ++ concat
                      (List.map
                         (fun values =>
                            fieldsText (FieldDelimiter s) false
                              (List.map wrapF values) ++ RowDelimiter s)
                         lines))
            false).
Proof.
  induction lines as [|values lines IH]; intros out.
  - simpl. now rewrite app_nil_r.
  - cbn [Formattable.WriteLinesFormattable].
    unfold Formattable.WriteLineFormattable.
    rewrite WriteAllFormattable_text. cbn [bind].
    unfold Writer.WriteRawLine, Writer.write.
    cbn [Writer.Settings Writer.Writer_].
    rewrite IH. cbn [List.map concat].
    now rewrite app_nil_r, <- !app_assoc.
Qed.

End FormattableText.


Lemma WriteFormattable_quoteAll (culture : Formattable.CultureInfo)
    (value : Formattable.IFormattable) (out : jsstring) (started : bool) :
  Formattable.WriteFormattable culture
    (Writer.mkWriter quoteAllSettings out started) (Some value) None
  = Ok (Writer.mkWriter quoteAllSettings
          (out ++ (if started then FieldDelimiter quoteAllSettings else [])
               ++ wrapFormattableQuoteAll culture value)
          true).
Proof.
  unfold Formattable.WriteFormattable, wrapFormattableQuoteAll,
    Formattable.absent.
  destruct (Formattable.isFalsy value).
  - unfold Writer.WriteRawValue, Writer.write.
    cbn [Writer.Settings Writer.Writer_ Writer.LineAlreadyStarted
         Writer.orEmpty].
    destruct started; now rewrite ?app_nil_r.
  - unfold Writer.Write. cbn [Writer.Settings].
    change (Formattable.toString value
              (Formattable.GetDefaultFormatFor value) (Some culture))
      with (Formattable.formatted culture value).
    rewrite wrapQuoteAll_ok. cbn [bind].
    unfold Writer.WriteRawValue, Writer.write.
    cbn [Writer.Settings Writer.Writer_ Writer.LineAlreadyStarted
         Writer.orEmpty].
    destruct started; now rewrite <- ?app_assoc.
Qed.


Lemma read_formattable_quoteAll (culture : Formattable.CultureInfo)
    (value : Formattable.IFormattable) (sep : Separator) (rest : jsstring) :
  Parser.fieldLoop
    (Lexer.scanLoop defaultSettings
       (wrapFormattableQuoteAll culture value ++ separatorText sep ++ rest)
       [])
    (Parser.mkFieldState [] false false)
  = Ok (fieldOfFormattable culture value,
        Parser.mkParser (Yields (Lexer.scanLoop defaultSettings rest []))
          (Some (separatorToken sep))).
Proof.
  unfold wrapFormattableQuoteAll, fieldOfFormattable, Formattable.effective.
  destruct (Formattable.isFalsy value).
  - apply (read_minimal [] sep rest).
  - apply read_quoted.
Qed.


(** X21.  Lines of formattable values in QuoteAll mode.  A falsy value is
    written as nothing, not as two quotes; any other value as its string
    between quotes with its quotes doubled; values are separated by commas
    and lines ended by CR LF.  The text parses back to one row per line
    whose fields are the strings of the values, [null] for a falsy value
    and for a value whose string is empty, and a line without values
    parses back as a row of one [null] field. *)
Theorem write_formattable_then_parse_quoteAll
    (culture : Formattable.CultureInfo)
    (lines : list (list Formattable.IFormattable)) :
  writtenFormattableLines culture quoteAllSettings lines
  = Ok (concat (List.map (writtenLine (wrapFormattableQuoteAll culture))
                  lines))
  /\ writeFormattableThenParse culture quoteAllSettings lines
     = Ok (List.map
             (fun values => Some (readRow (fieldOfFormattable culture) values))
             lines).
Proof.
  assert (Ht : writtenFormattableLines culture quoteAllSettings lines
               = Ok (concat
                       (List.map
                          (writtenLine (wrapFormattableQuoteAll culture))
                          lines))).
  { unfold writtenFormattableLines, Writer.new_Writer.
    cbn [Parser.orDefault].
    rewrite (WriteLinesFormattable_text culture quoteAllSettings
               (wrapFormattableQuoteAll culture)
               (WriteFormattable_quoteAll culture)).
    reflexivity. }
  split; [exact Ht|].
  unfold writeFormattableThenParse. rewrite Ht. cbn [bind].
  unfold Parser.Parse. rewrite quoteAll_as_default.
  exact (Parse_lines _ (wrapFormattableQuoteAll culture)
           (fieldOfFormattable culture)
           (read_formattable_quoteAll culture) lines).
Qed.
